(** * Agent C signaling server: connection registry and signal routing

    A shallow embedding of the two WebSocket relays of the repository:

    - [Standalone]: [src/server.js], the relay with the [clients] map and
      temporary client ids;
    - [StoreBacked]: [src/unnamed/part_000], the relay with the
      [activeConnections] map, the per-connection [connectedAgentId] and the
      profile store;
    - [StoreBackedAsync]: the same relay with its handlers split where they
      [await] the profile store.

    Both keep one process-wide JavaScript [Map] from identifiers to sockets.
    Node runs the event handlers one at a time, so a run of the relay is a
    list of transport events, each handled by a function from world to
    world. *)

From Stdlib Require Import List String Ascii ZArith Bool Lia Arith.
From Stdlib Require Import DecimalString DecimalZ.
From Stdlib Require SpecFloat.
Import ListNotations.

Local Open Scope string_scope.
Local Open Scope list_scope.

(** ** JSON values, as [JSON.parse] returns them *)

(** A number is the double [JSON.parse] returns: a zero, a finite value
    [+-m * 2^e] in its one binary64 form, or an infinity (what the parser
    makes of [1e400]); it never returns NaN. *)
Definition double : Type := SpecFloat.spec_float.

(** An array lists its elements and an object its own properties, in the
    order [JSON.stringify] enumerates them. *)
#[warnings="-register-all"]
Inductive json : Type :=
| JNull
| JBool (b : bool)
| JNum (x : double)
| JStr (s : string)
| JArr (items : list json)
| JObj (fields : list (string * json)).

(** An inbound frame: [JSON.parse(data)] either throws a SyntaxError or
    returns a value. *)
Inductive frame : Type :=
| Unparsable
| Parsed (j : json).

(** The result of evaluating an expression that may throw. *)
Inductive completion (A : Type) : Type :=
| Normal (a : A)
| Throw.
Arguments Normal {A} a.
Arguments Throw {A}.

(** The property [name] of a parsed object; [None] is [undefined].  Should
    a name be listed twice, the last one counts, as in [JSON.parse]. *)
Fixpoint own_field (name : string) (fields : list (string * json)) : option json :=
  match fields with
  | [] => None
  | (k, v) :: rest =>
      match own_field name rest with
      | Some later => Some later
      | None => if String.eqb k name then Some v else None
      end
  end.

(** [message.name]: reading a property of [null] throws a TypeError; a
    boolean, number, string or array has none of the properties the relays
    read ([type], [agentId], [target], ...), so the read gives [undefined]. *)
Definition get_field (name : string) (message : json) : completion (option json) :=
  match message with
  | JNull => Throw
  | JObj fields => Normal (own_field name fields)
  | _ => Normal None
  end.

(** ** Map keys *)

(** Whether a template literal can print a value.  An object that has an
    own property [toString] cannot (the property is no function, and the
    inherited [valueOf] returns the object): the conversion throws a
    TypeError.  An array prints its elements, [null] as the empty string. *)
Fixpoint printable (j : json) : bool :=
  match j with
  | JArr items => forallb printable items
  | JObj fields =>
      match own_field "toString" fields with
      | Some _ => false
      | None => true
      end
  | _ => true
  end.

(** The same for a value that may be [undefined]. *)
Definition printable_value (v : option json) : bool :=
  match v with
  | Some j => printable j
  | None => true
  end.

(** A [Map] compares keys by SameValueZero: primitives by value, with the
    two zeros equal, objects and arrays by identity.  [KNum] holds the
    number with a negative zero made positive, as [set] stores it.
    [KRef n p] is the [n]-th object that was stored as a key, and [p] says
    whether it is [printable]. *)
Inductive key : Type :=
| KUndefined
| KNull
| KBool (b : bool)
| KNum (x : double)
| KStr (s : string)
| KRef (n : nat) (p : bool).

Definition double_eqb (x y : double) : bool :=
  match x, y with
  | SpecFloat.S754_zero a, SpecFloat.S754_zero b => Bool.eqb a b
  | SpecFloat.S754_infinity a, SpecFloat.S754_infinity b => Bool.eqb a b
  | SpecFloat.S754_nan, SpecFloat.S754_nan => true
  | SpecFloat.S754_finite a m e, SpecFloat.S754_finite b n f =>
      Bool.eqb a b && Pos.eqb m n && Z.eqb e f
  | _, _ => false
  end.

Definition key_eqb (a b : key) : bool :=
  match a, b with
  | KUndefined, KUndefined => true
  | KNull, KNull => true
  | KBool x, KBool y => Bool.eqb x y
  | KNum x, KNum y => double_eqb x y
  | KStr x, KStr y => String.eqb x y
  | KRef x p, KRef y q => Nat.eqb x y && Bool.eqb p q
  | _, _ => false
  end.

(** The number as a key: [-0] is stored as [+0]. *)
Definition number_key (x : double) : double :=
  match x with
  | SpecFloat.S754_zero _ => SpecFloat.S754_zero false
  | _ => x
  end.

(** The key a primitive value is; an object or an array has no value key,
    only its identity. *)
Definition prim_key (v : option json) : option key :=
  match v with
  | None => Some KUndefined
  | Some JNull => Some KNull
  | Some (JBool b) => Some (KBool b)
  | Some (JNum x) => Some (KNum (number_key x))
  | Some (JStr s) => Some (KStr s)
  | Some (JArr _) => None
  | Some (JObj _) => None
  end.

(** JavaScript truthiness of a value held as a key. *)
Definition truthy (k : key) : bool :=
  match k with
  | KUndefined => false
  | KNull => false
  | KBool b => b
  | KNum (SpecFloat.S754_zero _) => false
  | KNum SpecFloat.S754_nan => false
  | KNum _ => true
  | KStr s => negb (String.eqb s "")
  | KRef _ _ => true
  end.

(** Whether a template literal can print a value held as a key. *)
Definition key_printable (k : key) : bool :=
  match k with
  | KRef _ p => p
  | _ => true
  end.

(** ** What [JSON.stringify] puts on the wire *)


(** A value that [JSON.stringify] writes as it is: no infinity, no NaN and
    no negative zero in it. *)
Fixpoint exact (j : json) : bool :=
  match j with
  | JNum (SpecFloat.S754_zero s) => negb s
  | JNum (SpecFloat.S754_finite _ _ _) => true
  | JNum _ => false
  | JArr items => forallb exact items
  | JObj fields => forallb (fun f => exact (snd f)) fields
  | _ => true
  end.


(** ** Sockets *)

(** A socket is known by its identity ([socket === ws]). *)
Definition socket : Type := nat.

(** [ws.readyState]. *)
Inductive ready_state : Type :=
| CONNECTING
| OPEN
| CLOSING
| CLOSED.

Definition is_open (r : ready_state) : bool :=
  match r with
  | OPEN => true
  | _ => false
  end.

(** ** The JavaScript [Map] *)

(** Entries in insertion order, which is the order [entries()] iterates. *)
Definition jsmap : Type := list (key * socket).

Fixpoint map_get (k : key) (m : jsmap) : option socket :=
  match m with
  | [] => None
  | (k', v) :: rest => if key_eqb k' k then Some v else map_get k rest
  end.

(** [m.set(k, v)]: a present key keeps its place and gets the new value; a
    new key goes last. *)
Fixpoint map_set (k : key) (v : socket) (m : jsmap) : jsmap :=
  match m with
  | [] => [(k, v)]
  | (k', v') :: rest =>
      if key_eqb k' k then (k', v) :: rest else (k', v') :: map_set k v rest
  end.

Fixpoint map_delete (k : key) (m : jsmap) : jsmap :=
  match m with
  | [] => []
  | (k', v') :: rest =>
      if key_eqb k' k then rest else (k', v') :: map_delete k rest
  end.

Definition keys (m : jsmap) : list key := map fst m.

(** How many entries a map holds for a key. *)
Definition entries_for (k : key) (m : jsmap) : nat :=
  List.length (filter (fun e => key_eqb (fst e) k) m).

(** [clients.get(v)] for a value just read from a message: a freshly parsed
    object or array is identical to no key of the map. *)
Definition map_get_value (v : option json) (m : jsmap) : option socket :=
  match prim_key v with
  | Some k => map_get k m
  | None => None
  end.

(** ** Messages the relays send *)

(** The object handed to [JSON.stringify] and [send]. *)
Inductive outbound : Type :=
| MConnected (clientId : string)
| MRegistered (agentId : option json)
| MSignal (from : option json) (signal : option json)
| MError
| MPong.


Definition is_error (m : outbound) : bool :=
  match m with
  | MError => true
  | _ => false
  end.

(** What a log of [send] calls delivered to [ws], oldest first. *)
Definition inbox (ws : socket) (log : list (socket * outbound)) : list outbound :=
  map snd (filter (fun p => Nat.eqb (fst p) ws) log).

Definition update {A : Type} (f : socket -> A) (c : socket) (a : A) : socket -> A :=
  fun c' => if Nat.eqb c' c then a else f c'.

(** ** src/server.js *)

Module Standalone.

Record world : Type := mkWorld {
  clients : jsmap;
  readyState : socket -> ready_state;
  (** the [clientId] constant of each connection's closure *)
  clientId : socket -> string;
  (** every [send] call so far, oldest first *)
  sent : list (socket * outbound);
  (** objects stored as keys so far *)
  next_ref : nat
}.

Definition init : world :=
  mkWorld [] (fun _ => CONNECTING) (fun _ => "") [] 0.

Definition send (ws : socket) (m : outbound) (w : world) : world :=
  mkWorld (clients w) (readyState w) (clientId w) (sent w ++ [(ws, m)]) (next_ref w).

Definition with_clients (m : jsmap) (w : world) : world :=
  mkWorld m (readyState w) (clientId w) (sent w) (next_ref w).

(** [Date.now().toString()] *)
Definition temporary_id (now : Z) : string :=
  NilZero.string_of_int (Z.to_int now).

(** [wss.on('connection', ...)], lines 34-46. *)
Definition on_connection (now : Z) (ws : socket) (w : world) : world :=
  let id := temporary_id now in
  let w1 := mkWorld (map_set (KStr id) ws (clients w))
                    (update (readyState w) ws OPEN)
                    (update (clientId w) ws id)
                    (sent w) (next_ref w) in
  send ws (MConnected id) w1.

(** [case 'register'], lines 56-67. *)
Definition register (ws : socket) (agentId : option json) (w : world) : world :=
  let oldId := KStr (clientId w ws) in
  let m1 := map_delete oldId (clients w) in
  let w2 :=
    match prim_key agentId with
    | Some k => with_clients (map_set k ws m1) w
    | None =>
        mkWorld (map_set (KRef (next_ref w) (printable_value agentId)) ws m1)
                (readyState w) (clientId w) (sent w) (S (next_ref w))
    end in
  send ws (MRegistered agentId) w2.

(** [case 'signal'], lines 69-84. *)
Definition signal (ws : socket) (target from sig : option json) (w : world) : world :=
  match map_get_value target (clients w) with
  | Some targetWs =>
      if is_open (readyState w targetWs)
      then send targetWs (MSignal from sig) w
      else send ws MError w
  | None => send ws MError w
  end.

(** The body of the [try] block, lines 51-90.  [switch] compares
    [message.type] with [===], so only a string can match a case. *)
Definition dispatch (ws : socket) (data : frame) (w : world) : completion world :=
  match data with
  | Unparsable => Throw
  | Parsed message =>
      match get_field "type" message with
      | Throw => Throw
      | Normal (Some (JStr type)) =>
          if String.eqb type "register" then
            match get_field "agentId" message with
            | Normal agentId => Normal (register ws agentId w)
            | Throw => Throw
            end
          else if String.eqb type "signal" then
            match get_field "target" message, get_field "from" message,
                  get_field "signal" message with
            | Normal target, Normal from, Normal sig =>
                Normal (signal ws target from sig w)
            | _, _, _ => Throw
            end
          else if String.eqb type "ping" then Normal (send ws MPong w)
          else Normal w
      | Normal _ => Normal w
      end
  end.

(** [ws.on('message', ...)], lines 49-94: the [catch] logs and goes on. *)
Definition on_message (ws : socket) (data : frame) (w : world) : world :=
  match dispatch ws data w with
  | Normal w' => w'
  | Throw => w
  end.

(** The loop of lines 100-105: delete the first entry, in iteration
    order, whose socket is [ws], and stop. *)
Fixpoint remove_first_of (ws : socket) (m : jsmap) : jsmap :=
  match m with
  | [] => []
  | (id, sock) :: rest =>
      if Nat.eqb sock ws then map_delete id m
      else (id, sock) :: remove_first_of ws rest
  end.

(** The transport closes [ws], then [ws.on('close', ...)], lines 97-106. *)
Definition on_close (ws : socket) (w : world) : world :=
  mkWorld (remove_first_of ws (clients w))
          (update (readyState w) ws CLOSED)
          (clientId w) (sent w) (next_ref w).

Inductive event : Type :=
| Connection (now : Z) (ws : socket)
| Message (ws : socket) (data : frame)
| Close (ws : socket).

Definition step (w : world) (e : event) : world :=
  match e with
  | Connection now ws => on_connection now ws w
  | Message ws data => on_message ws data w
  | Close ws => on_close ws w
  end.

Definition run (w : world) (trace : list event) : world :=
  fold_left step trace w.

Definition lookup (id : string) (w : world) : option socket :=
  map_get (KStr id) (clients w).

(** What was sent to [ws], oldest first. *)
Definition delivered (ws : socket) (w : world) : list outbound :=
  inbox ws (sent w).

End Standalone.

(** ** src/unnamed/part_000 *)

(** The handlers of this relay [await] an update of the profile store, an
    external collaborator; the update is taken to resolve, and the effects of
    a handler on the map, the closure variable and the sockets are taken in
    program order. *)
Module StoreBacked.

Record world : Type := mkWorld {
  activeConnections : jsmap;
  readyState : socket -> ready_state;
  (** the [connectedAgentId] variable of each connection's closure *)
  connectedAgentId : socket -> key;
  (** every [send] call so far, oldest first *)
  sent : list (socket * outbound);
  (** objects stored as keys so far *)
  next_ref : nat
}.

Definition init : world :=
  mkWorld [] (fun _ => CONNECTING) (fun _ => KNull) [] 0.

Definition send (ws : socket) (m : outbound) (w : world) : world :=
  mkWorld (activeConnections w) (readyState w) (connectedAgentId w)
          (sent w ++ [(ws, m)]) (next_ref w).

(** [wss.on('connection', ...)], lines 30-33. *)
Definition on_connection (ws : socket) (w : world) : world :=
  mkWorld (activeConnections w)
          (update (readyState w) ws OPEN)
          (update (connectedAgentId w) ws KNull)
          (sent w) (next_ref w).

(** [case 'register'], lines 41-62.  The template literal of line 45
    throws for an [agentId] that is not [printable], after the variable and
    the map are set: the [catch] logs it, and the store update and the
    reply are skipped. *)
Definition register (ws : socket) (agentId : option json) (w : world) : world :=
  let '(k, refs) :=
    match prim_key agentId with
    | Some k => (k, next_ref w)
    | None => (KRef (next_ref w) (printable_value agentId), S (next_ref w))
    end in
  let w1 := mkWorld (map_set k ws (activeConnections w))
                    (readyState w)
                    (update (connectedAgentId w) ws k)
                    (sent w) refs in
  if printable_value agentId then send ws (MRegistered agentId) w1 else w1.

(** [case 'signal'], lines 64-77: an unreachable target is only logged. *)
Definition signal (ws : socket) (targetAgentId fromAgentId sig : option json)
    (w : world) : world :=
  match map_get_value targetAgentId (activeConnections w) with
  | Some targetWs =>
      if is_open (readyState w targetWs)
      then send targetWs (MSignal fromAgentId sig) w
      else w
  | None => w
  end.

(** The body of the [try] block, lines 37-82. *)
Definition dispatch (ws : socket) (message : frame) (w : world) : completion world :=
  match message with
  | Unparsable => Throw
  | Parsed data =>
      match get_field "type" data with
      | Throw => Throw
      | Normal (Some (JStr type)) =>
          if String.eqb type "register" then
            match get_field "agentId" data with
            | Normal agentId => Normal (register ws agentId w)
            | Throw => Throw
            end
          else if String.eqb type "signal" then
            match get_field "targetAgentId" data, get_field "fromAgentId" data,
                  get_field "signal" data with
            | Normal target, Normal from, Normal sig =>
                Normal (signal ws target from sig w)
            | _, _, _ => Throw
            end
          else if String.eqb type "ping" then Normal (send ws MPong w)
          else Normal w
      | Normal _ => Normal w
      end
  end.

(** [ws.on('message', ...)], lines 35-86: the [catch] logs and goes on. *)
Definition on_message (ws : socket) (message : frame) (w : world) : world :=
  match dispatch ws message w with
  | Normal w' => w'
  | Throw => w
  end.

(** The transport closes [ws], then [ws.on('close', ...)], lines 88-102.
    For a [connectedAgentId] that is not printable the store filter of line
    97, which writes the value into a string, throws before the delete:
    the handler ends there and the entry stays. *)
Definition on_close (ws : socket) (w : world) : world :=
  let m :=
    if truthy (connectedAgentId w ws) && key_printable (connectedAgentId w ws)
    then map_delete (connectedAgentId w ws) (activeConnections w)
    else activeConnections w in
  mkWorld m (update (readyState w) ws CLOSED) (connectedAgentId w)
          (sent w) (next_ref w).

Inductive event : Type :=
| Connection (ws : socket)
| Message (ws : socket) (message : frame)
| Close (ws : socket).

Definition step (w : world) (e : event) : world :=
  match e with
  | Connection ws => on_connection ws w
  | Message ws message => on_message ws message w
  | Close ws => on_close ws w
  end.

Definition run (w : world) (trace : list event) : world :=
  fold_left step trace w.

Definition lookup (id : string) (w : world) : option socket :=
  map_get (KStr id) (activeConnections w).

Definition delivered (ws : socket) (w : world) : list outbound :=
  inbox ws (sent w).

End StoreBacked.

(** ** Frames used in the scenarios *)

Definition register_frame (agentId : string) : frame :=
  Parsed (JObj [("type", JStr "register"); ("agentId", JStr agentId)]).

(** Which frames reach a [case] of the [switch]. *)
Definition frame_type (data : frame) : option string :=
  match data with
  | Parsed (JObj fields) =>
      match own_field "type" fields with
      | Some (JStr type) => Some type
      | _ => None
      end
  | _ => None
  end.

Definition is_register (data : frame) : bool :=
  match frame_type data with
  | Some type => String.eqb type "register"
  | None => false
  end.

Definition known_type (data : frame) : bool :=
  match frame_type data with
  | Some type =>
      String.eqb type "register" || String.eqb type "signal" || String.eqb type "ping"
  | None => false
  end.

(** A field of a frame that parsed to an object; [None] is [undefined]. *)
Definition frame_field (name : string) (data : frame) : option json :=
  match data with
  | Parsed (JObj fields) => own_field name fields
  | _ => None
  end.

(** A target no message can be routed to: not a key of the map, or bound to
    a socket that is not open. *)
Definition unroutable (target : option json) (m : jsmap)
    (rs : socket -> ready_state) : Prop :=
  map_get_value target m = None \/
  exists z, map_get_value target m = Some z /\ rs z <> OPEN.

(** Handling the same inbound frame [n] times in a row. *)
Definition repeatedly {W : Type} (handle : W -> W) (n : nat) (w : W) : W :=
  Nat.iter n handle w.

(** The sockets a trace accepts, in order, and whether a socket sent a
    [register] message in it. *)
Definition accepted (trace : list Standalone.event) : list socket :=
  flat_map (fun e => match e with
                     | Standalone.Connection _ ws => [ws]
                     | _ => []
                     end) trace.

Definition registers_on (ws : socket) (e : Standalone.event) : bool :=
  match e with
  | Standalone.Message ws' data => Nat.eqb ws' ws && is_register data
  | _ => false
  end.

Definition store_registers_on (ws : socket) (e : StoreBacked.event) : bool :=
  match e with
  | StoreBacked.Message ws' data => Nat.eqb ws' ws && is_register data
  | _ => false
  end.

(** The conditional unbind of the specification's registry (section 4.1,
    [unbind_if_current]): the entry for [id] is removed only if it maps to
    exactly this socket.  Neither relay has it as a function; the close
    handlers are compared with it. *)
Definition unbind_if_current (id : key) (ws : socket) (m : jsmap) : jsmap :=
  match map_get id m with
  | Some s => if Nat.eqb s ws then map_delete id m else m
  | None => m
  end.

(** ** Counting entries, and the runs the transport allows *)

(** How many entries of a map are bound to a socket. *)
Definition bound_count (ws : socket) (m : jsmap) : nat :=
  List.length (filter (fun e => Nat.eqb (snd e) ws) m).





(** [activeConnections.size], the [connections] field that the root
    endpoint of src/unnamed/part_000 reports (line 273). *)
Definition connections (w : StoreBacked.world) : nat :=
  List.length (StoreBacked.activeConnections w).



(** How many [register] messages a trace of src/unnamed/part_000 holds. *)
Definition store_register_messages (trace : list StoreBacked.event) : nat :=
  List.length (filter (fun e => match e with
                                | StoreBacked.Message _ data => is_register data
                                | _ => false
                                end) trace).

(** ** src/unnamed/part_000 with the store updates in flight *)

(** The [register] case and the close handler [await] an update of the
    profile store and go on when it resolves; other handlers run in
    between.  Here a handler runs up to its [await] and leaves what follows
    as a pending continuation, which a later [Resolve] event runs. *)
Module StoreBackedAsync.

(** What is left of a handler after its [await]. *)
Inductive continuation : Type :=
| SendRegistered (ws : socket) (agentId : option json)
| DeleteConnection (ws : socket).

Record world : Type := mkAsync {
  relay : StoreBacked.world;
  pending : list continuation
}.

Definition init : world := mkAsync StoreBacked.init [].

(** [case 'register'] up to the log of line 45, lines 43-44. *)
Definition register_start (ws : socket) (agentId : option json)
    (w : StoreBacked.world) : StoreBacked.world :=
  let '(k, refs) :=
    match prim_key agentId with
    | Some k => (k, StoreBacked.next_ref w)
    | None => (KRef (StoreBacked.next_ref w) (printable_value agentId),
               S (StoreBacked.next_ref w))
    end in
  StoreBacked.mkWorld (map_set k ws (StoreBacked.activeConnections w))
                      (StoreBacked.readyState w)
                      (update (StoreBacked.connectedAgentId w) ws k)
                      (StoreBacked.sent w) refs.

(** The body of the [try] block, lines 37-82, up to the first [await].
    When line 45 throws, the handler ends in its [catch] and leaves nothing
    pending. *)
Definition dispatch (ws : socket) (message : frame) (a : world) : completion world :=
  match message with
  | Unparsable => Throw
  | Parsed data =>
      match get_field "type" data with
      | Throw => Throw
      | Normal (Some (JStr type)) =>
          if String.eqb type "register" then
            match get_field "agentId" data with
            | Normal agentId =>
                Normal (mkAsync (register_start ws agentId (relay a))
                                (if printable_value agentId
                                 then pending a ++ [SendRegistered ws agentId]
                                 else pending a))
            | Throw => Throw
            end
          else if String.eqb type "signal" then
            match get_field "targetAgentId" data, get_field "fromAgentId" data,
                  get_field "signal" data with
            | Normal target, Normal from, Normal sig =>
                Normal (mkAsync (StoreBacked.signal ws target from sig (relay a))
                                (pending a))
            | _, _, _ => Throw
            end
          else if String.eqb type "ping"
               then Normal (mkAsync (StoreBacked.send ws MPong (relay a)) (pending a))
          else Normal a
      | Normal _ => Normal a
      end
  end.

Definition on_message (ws : socket) (message : frame) (a : world) : world :=
  match dispatch ws message a with
  | Normal a' => a'
  | Throw => a
  end.

(** The transport closes [ws]; the close handler, lines 88-98, tests
    [connectedAgentId] and awaits the store, unless the filter of line 97
    throws, which ends the handler. *)
Definition on_close (ws : socket) (a : world) : world :=
  let w := relay a in
  mkAsync (StoreBacked.mkWorld (StoreBacked.activeConnections w)
             (update (StoreBacked.readyState w) ws CLOSED)
             (StoreBacked.connectedAgentId w) (StoreBacked.sent w)
             (StoreBacked.next_ref w))
          (if truthy (StoreBacked.connectedAgentId w ws) &&
              key_printable (StoreBacked.connectedAgentId w ws)
           then pending a ++ [DeleteConnection ws]
           else pending a).

(** The rest of a handler: the reply of lines 57-61, or the delete of line
    99, which reads [connectedAgentId] when it runs. *)
Definition resume (c : continuation) (w : StoreBacked.world) : StoreBacked.world :=
  match c with
  | SendRegistered ws agentId => StoreBacked.send ws (MRegistered agentId) w
  | DeleteConnection ws =>
      StoreBacked.mkWorld
        (map_delete (StoreBacked.connectedAgentId w ws) (StoreBacked.activeConnections w))
        (StoreBacked.readyState w) (StoreBacked.connectedAgentId w)
        (StoreBacked.sent w) (StoreBacked.next_ref w)
  end.

(** The [n]-th pending store update resolves. *)
Definition resolve (n : nat) (a : world) : world :=
  match nth_error (pending a) n with
  | Some c => mkAsync (resume c (relay a))
                      (firstn n (pending a) ++ skipn (S n) (pending a))
  | None => a
  end.

Inductive event : Type :=
| Connection (ws : socket)
| Message (ws : socket) (message : frame)
| Close (ws : socket)
| Resolve (n : nat).

Definition step (a : world) (e : event) : world :=
  match e with
  | Connection ws => mkAsync (StoreBacked.on_connection ws (relay a)) (pending a)
  | Message ws message => on_message ws message a
  | Close ws => on_close ws a
  | Resolve n => resolve n a
  end.

Definition run (a : world) (trace : list event) : world :=
  fold_left step trace a.

End StoreBackedAsync.

(** The schedule in which every store update resolves before the next
    event. *)
Definition eagerly (trace : list StoreBacked.event) : list StoreBackedAsync.event :=
  flat_map (fun e =>
              [match e with
               | StoreBacked.Connection ws => StoreBackedAsync.Connection ws
               | StoreBacked.Message ws message => StoreBackedAsync.Message ws message
               | StoreBacked.Close ws => StoreBackedAsync.Close ws
               end;
               StoreBackedAsync.Resolve 0]) trace.

(** * Facts about the map *)

Section MapFacts.

Lemma double_eqb_spec (x y : double) : reflect (x = y) (double_eqb x y).
Proof.
  destruct x as [a|a| |a m e], y as [b|b| |b n f]; simpl;
    try (constructor; congruence).
  - destruct (Bool.eqb_spec a b); constructor; congruence.
  - destruct (Bool.eqb_spec a b); constructor; congruence.
  - destruct (Bool.eqb_spec a b), (Pos.eqb_spec m n), (Z.eqb_spec e f); simpl;
      constructor; congruence.
Qed.

Lemma key_eqb_spec (a b : key) : reflect (a = b) (key_eqb a b).
Proof.
  destruct a as [| |a|x|s|n p], b as [| |b|y|t|m q]; simpl;
    try (constructor; congruence).
  - destruct (Bool.eqb_spec a b); constructor; congruence.
  - destruct (double_eqb_spec x y); constructor; congruence.
  - destruct (String.eqb_spec s t); constructor; congruence.
  - destruct (Nat.eqb_spec n m), (Bool.eqb_spec p q); simpl;
      constructor; congruence.
Qed.

Lemma key_eqb_refl (k : key) : key_eqb k k = true.
Proof. destruct (key_eqb_spec k k); congruence. Qed.

Lemma key_eqb_neq (a b : key) : a <> b -> key_eqb a b = false.
Proof. destruct (key_eqb_spec a b); congruence. Qed.

Lemma map_get_none (k : key) (m : jsmap) :
  map_get k m = None <-> ~ In k (keys m).
Proof.
  induction m as [|[k' v] m IH]; simpl.
  - tauto.
  - destruct (key_eqb_spec k' k) as [->|Hne].
    + split; [discriminate | tauto].
    + rewrite IH. tauto.
Qed.

Lemma map_get_in (k : key) (v : socket) (m : jsmap) :
  map_get k m = Some v -> In (k, v) m.
Proof.
  induction m as [|[k' v'] m IH]; simpl; [discriminate|].
  destruct (key_eqb_spec k' k) as [->|Hne].
  - intros [= ->]. now left.
  - intros H. right. now apply IH.
Qed.

Lemma in_map_get (k : key) (v : socket) (m : jsmap) :
  NoDup (keys m) -> In (k, v) m -> map_get k m = Some v.
Proof.
  induction m as [|[k' v'] m IH]; simpl; [tauto|].
  intros Hnd [[= -> ->]|Hin].
  - now rewrite key_eqb_refl.
  - inversion Hnd as [|? ? Hk Hnd']; subst.
    destruct (key_eqb_spec k' k) as [->|Hne].
    + exfalso. apply Hk. change k with (fst (k, v)). now apply in_map.
    + now apply IH.
Qed.

Lemma map_get_set_same (k : key) (v : socket) (m : jsmap) :
  map_get k (map_set k v m) = Some v.
Proof.
  induction m as [|[k' v'] m IH]; simpl.
  - now rewrite key_eqb_refl.
  - destruct (key_eqb k' k) eqn:E; simpl; now rewrite E.
Qed.

Lemma map_get_set_other (k k' : key) (v : socket) (m : jsmap) :
  k <> k' -> map_get k' (map_set k v m) = map_get k' m.
Proof.
  intros Hne. induction m as [|[k0 v0] m IH]; simpl.
  - now rewrite key_eqb_neq.
  - destruct (key_eqb_spec k0 k) as [->|Hk]; simpl.
    + now rewrite key_eqb_neq.
    + now rewrite IH.
Qed.

Lemma map_get_delete_other (k k' : key) (m : jsmap) :
  k <> k' -> map_get k' (map_delete k m) = map_get k' m.
Proof.
  intros Hne. induction m as [|[k0 v0] m IH]; simpl; [reflexivity|].
  destruct (key_eqb_spec k0 k) as [->|Hk]; simpl.
  - now rewrite key_eqb_neq.
  - now rewrite IH.
Qed.

Lemma keys_map_set (k : key) (v : socket) (m : jsmap) :
  keys (map_set k v m) =
  match map_get k m with Some _ => keys m | None => keys m ++ [k] end.
Proof.
  induction m as [|[k' v'] m IH]; simpl; [reflexivity|].
  destruct (key_eqb k' k) eqn:E; simpl; [reflexivity|].
  rewrite IH. now destruct (map_get k m).
Qed.

Lemma map_set_present (k : key) (v : socket) (m : jsmap) :
  map_get k m = Some v -> map_set k v m = m.
Proof.
  induction m as [|[k' v'] m IH]; simpl; [discriminate|].
  destruct (key_eqb k' k) eqn:E.
  - now intros [= ->].
  - intros H. now rewrite IH.
Qed.

Lemma map_set_absent (k : key) (v : socket) (m : jsmap) :
  map_get k m = None -> map_set k v m = m ++ [(k, v)].
Proof.
  induction m as [|[k' v'] m IH]; simpl; [reflexivity|].
  destruct (key_eqb k' k) eqn:E; [discriminate|].
  intros H. now rewrite IH.
Qed.

Lemma map_delete_absent (k : key) (m : jsmap) :
  map_get k m = None -> map_delete k m = m.
Proof.
  induction m as [|[k' v'] m IH]; simpl; [reflexivity|].
  destruct (key_eqb k' k) eqn:E; [discriminate|].
  intros H. now rewrite IH.
Qed.

Lemma in_map_delete (e : key * socket) (k : key) (m : jsmap) :
  In e (map_delete k m) -> In e m.
Proof.
  induction m as [|[k' v'] m IH]; simpl; [tauto|].
  destruct (key_eqb k' k); simpl; intuition.
Qed.

Lemma in_keys_map_delete (k0 k : key) (m : jsmap) :
  In k0 (keys (map_delete k m)) -> In k0 (keys m).
Proof.
  unfold keys. rewrite !in_map_iff. intros [e [He Hin]].
  exists e. split; [assumption|]. now apply in_map_delete in Hin.
Qed.

Lemma NoDup_map_delete (k : key) (m : jsmap) :
  NoDup (keys m) -> NoDup (keys (map_delete k m)).
Proof.
  induction m as [|[k' v'] m IH]; simpl; [trivial|].
  intros Hnd. inversion Hnd as [|? ? Hk Hnd']; subst.
  destruct (key_eqb k' k); simpl; [assumption|].
  constructor; [|now apply IH].
  intros Hin. apply Hk. now apply in_keys_map_delete in Hin.
Qed.

Lemma NoDup_map_set (k : key) (v : socket) (m : jsmap) :
  NoDup (keys m) -> NoDup (keys (map_set k v m)).
Proof.
  intros Hnd. rewrite keys_map_set.
  destruct (map_get k m) eqn:E; [assumption|].
  apply map_get_none in E.
  apply NoDup_app; [assumption | repeat constructor; simpl; tauto |].
  intros x Hx [<-|[]]. contradiction.
Qed.

Lemma map_get_delete_same (k : key) (m : jsmap) :
  NoDup (keys m) -> map_get k (map_delete k m) = None.
Proof.
  induction m as [|[k' v'] m IH]; simpl; [reflexivity|].
  intros Hnd. inversion Hnd as [|? ? Hk Hnd']; subst.
  destruct (key_eqb_spec k' k) as [->|Hne]; simpl.
  - now apply map_get_none.
  - rewrite key_eqb_neq by assumption. now apply IH.
Qed.

Lemma entries_for_get (k : key) (m : jsmap) :
  NoDup (keys m) ->
  entries_for k m = match map_get k m with Some _ => 1 | None => 0 end.
Proof.
  unfold entries_for.
  induction m as [|[k' v'] m IH]; simpl; [reflexivity|].
  intros Hnd. inversion Hnd as [|? ? Hk Hnd']; subst.
  destruct (key_eqb_spec k' k) as [->|Hne]; simpl.
  - rewrite IH by assumption.
    apply map_get_none in Hk. now rewrite Hk.
  - now apply IH.
Qed.

End MapFacts.

(** * Facts about frames *)

Section FrameFacts.

Lemma frame_type_get_field (data : frame) (type : string) :
  frame_type data = Some type ->
  exists fields, data = Parsed (JObj fields) /\
                 own_field "type" fields = Some (JStr type).
Proof.
  destruct data as [|[| | | | |fields]]; simpl; try discriminate.
  destruct (own_field "type" fields) as [[| | |s| |]|] eqn:E; try discriminate.
  intros [= ->]. now exists fields.
Qed.

Lemma prim_key_printable (v : option json) (k : key) :
  prim_key v = Some k -> printable_value v = true /\ key_printable k = true.
Proof. destruct v as [[| | | | |]|]; simpl; intros [= <-]; now split. Qed.

Lemma frame_field_obj (name : string) (fields : list (string * json)) :
  frame_field name (Parsed (JObj fields)) = own_field name fields.
Proof. reflexivity. Qed.

Lemma inbox_app (ws : socket) (log more : list (socket * outbound)) :
  inbox ws (log ++ more) = inbox ws log ++ inbox ws more.
Proof. unfold inbox. now rewrite filter_app, map_app. Qed.

Lemma inbox_repeat_same (ws : socket) (m : outbound) (n : nat) :
  inbox ws (repeat (ws, m) n) = repeat m n.
Proof.
  unfold inbox. induction n as [|n IH]; simpl; [reflexivity|].
  rewrite Nat.eqb_refl. simpl. now rewrite IH.
Qed.

Lemma inbox_repeat_other (ws c : socket) (m : outbound) (n : nat) :
  c <> ws -> inbox c (repeat (ws, m) n) = [].
Proof.
  intros Hne.
  assert (H : Nat.eqb ws c = false) by (apply Nat.eqb_neq; congruence).
  unfold inbox. induction n as [|n IH]; simpl; [reflexivity|]. now rewrite H.
Qed.

(** [n] more messages to [Z] reach [Z] and nobody else. *)
Lemma inbox_grows (log log' : list (socket * outbound)) (Z : socket)
    (m : outbound) (n : nat) :
  log' = log ++ repeat (Z, m) n ->
  inbox Z log' = inbox Z log ++ repeat m n /\
  (forall c, c <> Z -> inbox c log' = inbox c log).
Proof.
  intros ->. split.
  - now rewrite inbox_app, inbox_repeat_same.
  - intros c Hne. now rewrite inbox_app, inbox_repeat_other, app_nil_r.
Qed.

End FrameFacts.

(** * src/server.js: steps and invariants *)

Section StandaloneFacts.

Import Standalone.

Lemma standalone_signal_message (ws : socket) (data : frame) (w : world) :
  frame_type data = Some "signal" ->
  on_message ws data w =
  signal ws (frame_field "target" data) (frame_field "from" data)
         (frame_field "signal" data) w.
Proof.
  intros H. destruct (frame_type_get_field _ _ H) as [fields [-> Ht]].
  unfold on_message, dispatch. simpl. now rewrite Ht.
Qed.

Lemma standalone_register_message (ws : socket) (data : frame) (w : world) :
  frame_type data = Some "register" ->
  on_message ws data w = register ws (frame_field "agentId" data) w.
Proof.
  intros H. destruct (frame_type_get_field _ _ H) as [fields [-> Ht]].
  unfold on_message, dispatch. simpl. now rewrite Ht.
Qed.

Lemma in_remove_first_of (e : key * socket) (ws : socket) (m : jsmap) :
  In e (remove_first_of ws m) -> In e m.
Proof.
  induction m as [|[k v] m IH]; simpl; [tauto|].
  destruct (Nat.eqb v ws).
  - rewrite key_eqb_refl. now right.
  - simpl. intuition.
Qed.

Lemma NoDup_remove_first_of (ws : socket) (m : jsmap) :
  NoDup (keys m) -> NoDup (keys (remove_first_of ws m)).
Proof.
  induction m as [|[k v] m IH]; simpl; [trivial|].
  intros Hnd. inversion Hnd as [|? ? Hk Hnd']; subst.
  destruct (Nat.eqb v ws).
  - now rewrite key_eqb_refl.
  - simpl. constructor; [|now apply IH].
    intros Hin. apply Hk. unfold keys in *. rewrite in_map_iff in *.
    destruct Hin as [e [He Hin]]. exists e. split; [assumption|].
    now apply in_remove_first_of in Hin.
Qed.

Lemma clients_register (ws : socket) (agentId : option json) (w : world) :
  exists k, clients (register ws agentId w) =
            map_set k ws (map_delete (KStr (clientId w ws)) (clients w)).
Proof.
  unfold register. destruct (prim_key agentId) as [k|]; simpl; eauto.
Qed.

Lemma clients_signal (ws : socket) (target from sig : option json) (w : world) :
  clients (signal ws target from sig w) = clients w.
Proof.
  unfold signal. destruct (map_get_value target (clients w)) as [t|]; [|reflexivity].
  now destruct (is_open (readyState w t)).
Qed.

Lemma clients_on_message (ws : socket) (data : frame) (w : world) :
  clients (on_message ws data w) = clients w \/
  exists k, clients (on_message ws data w) =
            map_set k ws (map_delete (KStr (clientId w ws)) (clients w)).
Proof.
  unfold on_message, dispatch.
  destruct data as [|message]; [now left|].
  destruct (get_field "type" message) as [[[| | |type| |]|]|]; try now left.
  destruct (String.eqb type "register").
  { destruct (get_field "agentId" message) as [agentId|]; [|now left].
    right. apply clients_register. }
  destruct (String.eqb type "signal").
  { destruct (get_field "target" message), (get_field "from" message),
      (get_field "signal" message); try now left.
    left. apply clients_signal. }
  destruct (String.eqb type "ping"); now left.
Qed.

Lemma step_keys_unique (w : world) (e : event) :
  NoDup (keys (clients w)) -> NoDup (keys (clients (step w e))).
Proof.
  intros Hnd. destruct e as [now ws|ws data|ws]; simpl.
  - now apply NoDup_map_set.
  - destruct (clients_on_message ws data w) as [->|[k ->]]; [assumption|].
    now apply NoDup_map_set, NoDup_map_delete.
  - now apply NoDup_remove_first_of.
Qed.

Lemma run_keys_unique (trace : list event) (w : world) :
  NoDup (keys (clients w)) -> NoDup (keys (clients (run w trace))).
Proof.
  revert w. induction trace as [|e trace IH]; intros w Hnd; simpl; [assumption|].
  apply IH. now apply step_keys_unique.
Qed.

(** In every run of the relay the [clients] map holds at most one entry per
    identifier. *)
Lemma standalone_keys_unique (trace : list event) :
  NoDup (keys (clients (run init trace))).
Proof. apply run_keys_unique. constructor. Qed.

Lemma temporary_id_inj (now1 now2 : Z) :
  temporary_id now1 = temporary_id now2 -> now1 = now2.
Proof.
  assert (Hnil : forall z, Z.to_int z <> Decimal.Pos Decimal.Nil /\
                           Z.to_int z <> Decimal.Neg Decimal.Nil).
  { intros [|p|p]; simpl; split; try discriminate;
      intros [= E]; now apply DecimalPos.Unsigned.to_uint_nonnil in E. }
  unfold temporary_id. intros H.
  apply (f_equal NilZero.int_of_string) in H.
  rewrite !NilZero.isi in H by apply Hnil. injection H as H.
  apply (f_equal Z.of_int) in H. now rewrite !DecimalZ.of_to in H.
Qed.

End StandaloneFacts.

(** * src/unnamed/part_000: steps and invariants *)

Section StoreBackedFacts.

Import StoreBacked.

Lemma store_signal_message (ws : socket) (data : frame) (w : world) :
  frame_type data = Some "signal" ->
  on_message ws data w =
  signal ws (frame_field "targetAgentId" data) (frame_field "fromAgentId" data)
         (frame_field "signal" data) w.
Proof.
  intros H. destruct (frame_type_get_field _ _ H) as [fields [-> Ht]].
  unfold on_message, dispatch. simpl. now rewrite Ht.
Qed.

Lemma store_register_message (ws : socket) (data : frame) (w : world) :
  frame_type data = Some "register" ->
  on_message ws data w = register ws (frame_field "agentId" data) w.
Proof.
  intros H. destruct (frame_type_get_field _ _ H) as [fields [-> Ht]].
  unfold on_message, dispatch. simpl. now rewrite Ht.
Qed.

Lemma store_register_string (ws : socket) (id : string) (w : world) :
  register ws (Some (JStr id)) w =
  mkWorld (map_set (KStr id) ws (activeConnections w)) (readyState w)
          (update (connectedAgentId w) ws (KStr id))
          (sent w ++ [(ws, MRegistered (Some (JStr id)))]) (next_ref w).
Proof. reflexivity. Qed.

Lemma activeConnections_signal (ws : socket) (target from sig : option json)
    (w : world) :
  activeConnections (signal ws target from sig w) = activeConnections w.
Proof.
  unfold signal.
  destruct (map_get_value target (activeConnections w)) as [t|]; [|reflexivity].
  now destruct (is_open (readyState w t)).
Qed.

Lemma activeConnections_on_message (ws : socket) (data : frame) (w : world) :
  activeConnections (on_message ws data w) = activeConnections w \/
  exists k, activeConnections (on_message ws data w) =
            map_set k ws (activeConnections w).
Proof.
  unfold on_message, dispatch.
  destruct data as [|message]; [now left|].
  destruct (get_field "type" message) as [[[| | |type| |]|]|]; try now left.
  destruct (String.eqb type "register").
  { destruct (get_field "agentId" message) as [agentId|]; [|now left].
    right. unfold register.
    destruct (prim_key agentId) as [k|], (printable_value agentId); simpl; eauto. }
  destruct (String.eqb type "signal").
  { destruct (get_field "targetAgentId" message),
      (get_field "fromAgentId" message), (get_field "signal" message);
      try now left.
    left. apply activeConnections_signal. }
  destruct (String.eqb type "ping"); now left.
Qed.

Lemma store_step_keys_unique (w : world) (e : event) :
  NoDup (keys (activeConnections w)) ->
  NoDup (keys (activeConnections (step w e))).
Proof.
  intros Hnd. destruct e as [ws|ws data|ws]; simpl.
  - assumption.
  - destruct (activeConnections_on_message ws data w) as [->|[k ->]];
      [assumption|]. now apply NoDup_map_set.
  - destruct (truthy (connectedAgentId w ws) && key_printable (connectedAgentId w ws));
      [|assumption].
    now apply NoDup_map_delete.
Qed.

(** In every run of the relay the [activeConnections] map holds at most one
    entry per identifier. *)
Lemma store_keys_unique (trace : list event) :
  NoDup (keys (activeConnections (run init trace))).
Proof.
  unfold run. assert (H : NoDup (keys (activeConnections init))) by constructor.
  revert H. generalize init.
  induction trace as [|e trace IH]; intros w Hnd; simpl; [assumption|].
  apply IH. now apply store_step_keys_unique.
Qed.

(** A socket that sent no [register] message still has the [null] it was
    accepted with in [connectedAgentId]. *)
Lemma store_unregistered_null (trace : list event) (ws : socket) (w : world) :
  connectedAgentId w ws = KNull ->
  existsb (store_registers_on ws) trace = false ->
  connectedAgentId (run w trace) ws = KNull.
Proof.
  revert w. induction trace as [|e trace IH]; intros w Hnull Hno; simpl;
    [assumption|].
  simpl in Hno. apply orb_false_elim in Hno as [He Hno].
  apply IH; [|assumption].
  destruct e as [ws'|ws' data|ws']; simpl in *.
  - unfold update. now destruct (Nat.eqb ws ws').
  - unfold on_message, dispatch.
    destruct data as [|message]; [assumption|].
    destruct message as [| | | | |fields]; simpl; try assumption.
    unfold is_register in He. simpl in He.
    destruct (own_field "type" fields) as [[| | |type| |]|]; try assumption.
    destruct (String.eqb type "register").
    { rewrite andb_true_r in He. unfold register.
      destruct (prim_key (own_field "agentId" fields)),
        (printable_value (own_field "agentId" fields)); simpl; unfold update;
        rewrite Nat.eqb_sym, He; assumption. }
    destruct (String.eqb type "signal").
    { unfold signal.
      destruct (map_get_value _ _) as [t|]; [|assumption].
      now destruct (is_open (readyState w t)). }
    now destruct (String.eqb type "ping").
  - assumption.
Qed.

End StoreBackedFacts.

(** * Registration, supersession and close *)

Section Registration.

Lemma map_get_remove_first_of (k : key) (v ws : socket) (m : jsmap) :
  v <> ws -> map_get k m = Some v ->
  map_get k (Standalone.remove_first_of ws m) = Some v.
Proof.
  intros Hne. induction m as [|[k0 v0] m IH]; simpl; [discriminate|].
  destruct (Nat.eqb_spec v0 ws) as [->|Hv].
  - rewrite key_eqb_refl.
    destruct (key_eqb k0 k); [intros [= ->]; contradiction | trivial].
  - simpl. destruct (key_eqb k0 k); [trivial | assumption].
Qed.

(** In src/server.js a close only removes an entry bound to the closing
    socket: after [X] and then [Y] register the same identifier, the close
    of [X] leaves the identifier bound to [Y]. *)
Lemma standalone_stale_close_keeps_newer (X Y : socket) (id : string)
    (data : frame) (w : Standalone.world) :
  X <> Y ->
  frame_type data = Some "register" ->
  frame_field "agentId" data = Some (JStr id) ->
  Standalone.lookup id
    (Standalone.on_close X
       (Standalone.on_message Y data (Standalone.on_message X data w))) = Some Y.
Proof.
  intros Hne Ht Ha.
  rewrite !standalone_register_message by assumption. rewrite Ha.
  unfold Standalone.lookup, Standalone.on_close. simpl.
  apply map_get_remove_first_of; [congruence|].
  apply map_get_set_same.
Qed.

(** C1. Supersede-then-stale-close on src/unnamed/part_000: sockets 0 and 1
    are accepted, 0 registers "A", 1 registers "A", and "A" resolves to 1;
    then 0 closes, its handler deletes [connectedAgentId] whatever socket
    the entry holds, and "A" resolves to nothing although socket 1 is still
    open.  The specification asks for "A" to resolve to 1 there. *)
Theorem C1_stale_close_evicts_newer_binding :
  let w := StoreBacked.run StoreBacked.init
             [StoreBacked.Connection 0; StoreBacked.Connection 1;
              StoreBacked.Message 0 (register_frame "A");
              StoreBacked.Message 1 (register_frame "A")] in
  StoreBacked.lookup "A" w = Some 1 /\
  StoreBacked.connectedAgentId w 0 = KStr "A" /\
  StoreBacked.readyState (StoreBacked.on_close 0 w) 1 = OPEN /\
  StoreBacked.lookup "A" (StoreBacked.on_close 0 w) = None.
Proof. repeat split. Qed.

(** C2. The registry invariant on src/server.js: socket 0 is accepted at
    time 1000, registers "A" and then "B", and closes.  Each [register]
    deletes the temporary id again, never "A"; the close loop deletes the
    first entry of the socket and stops.  The map is left with "B" bound to
    the closed socket 0, which the specification rules out. *)
Theorem C2_closed_socket_stays_registered :
  let w := Standalone.run Standalone.init
             [Standalone.Connection 1000 0;
              Standalone.Message 0 (register_frame "A");
              Standalone.Message 0 (register_frame "B");
              Standalone.Close 0] in
  Standalone.clients w = [(KStr "B", 0)] /\
  Standalone.readyState w 0 = CLOSED /\
  Standalone.lookup "B" w = Some 0.
Proof. repeat split. Qed.

(** C3. Re-registration under another identifier: socket 0 registers "A"
    and then "B".  In src/server.js [oldId] is the temporary id both times,
    in src/unnamed/part_000 nothing is deleted; in both "A" still resolves
    to socket 0 afterwards, where the specification asks for nothing. *)
Theorem C3_reregistration_keeps_old_entry :
  (let w := Standalone.run Standalone.init
              [Standalone.Connection 1000 0;
               Standalone.Message 0 (register_frame "A");
               Standalone.Message 0 (register_frame "B")] in
   Standalone.clients w = [(KStr "A", 0); (KStr "B", 0)] /\
   Standalone.lookup "A" w = Some 0 /\ Standalone.lookup "B" w = Some 0) /\
  (let w1 := StoreBacked.run StoreBacked.init
               [StoreBacked.Connection 0;
                StoreBacked.Message 0 (register_frame "A")] in
   let w2 := StoreBacked.on_message 0 (register_frame "B") w1 in
   StoreBacked.connectedAgentId w1 0 = KStr "A" /\
   StoreBacked.connectedAgentId w2 0 = KStr "B" /\
   StoreBacked.lookup "A" w2 = Some 0 /\ StoreBacked.lookup "B" w2 = Some 0).
Proof. repeat split. Qed.

End Registration.

(** * Routing *)

Section Routing.

Lemma unroutable_standalone_signal (ws : socket) (target from sig : option json)
    (w : Standalone.world) :
  unroutable target (Standalone.clients w) (Standalone.readyState w) ->
  Standalone.signal ws target from sig w = Standalone.send ws MError w.
Proof.
  unfold Standalone.signal. intros [->|[z [-> Hz]]]; [reflexivity|].
  destruct (Standalone.readyState w z); simpl; congruence.
Qed.

Lemma unroutable_store_signal (ws : socket) (target from sig : option json)
    (w : StoreBacked.world) :
  unroutable target (StoreBacked.activeConnections w) (StoreBacked.readyState w) ->
  StoreBacked.signal ws target from sig w = w.
Proof.
  unfold StoreBacked.signal. intros [->|[z [-> Hz]]]; [reflexivity|].
  destruct (StoreBacked.readyState w z); simpl; congruence.
Qed.

(** C4, as the specification states it, fails on src/unnamed/part_000:
    socket 0 is accepted and sends a signal for "B", which nothing is bound
    to; the relay logs it and sends no reply, so the sender has received no
    error message where the specification promises exactly one. *)
Lemma C4_unroutable_target_counterexample :
  let w := StoreBacked.run StoreBacked.init [StoreBacked.Connection 0] in
  let data := Parsed (JObj [("type", JStr "signal");
                            ("targetAgentId", JStr "B");
                            ("fromAgentId", JStr "A");
                            ("signal", JStr "offer")]) in
  frame_type data = Some "signal" /\
  StoreBacked.lookup "B" w = None /\
  StoreBacked.delivered 0 (StoreBacked.on_message 0 data w) = [] /\
  List.length (filter is_error
                 (StoreBacked.delivered 0 (StoreBacked.on_message 0 data w))) = 0.
Proof. repeat split. Qed.

(** C4, amended.  A signal whose target is not a key of the map, or is bound
    to a socket that is not open, leaves the map as it is and reaches no
    other socket.  src/server.js sends the sender one more message, an
    error; src/unnamed/part_000 sends nothing and changes nothing. *)
Theorem C4_unroutable_target :
  (forall (ws : socket) (data : frame) (w : Standalone.world),
      frame_type data = Some "signal" ->
      unroutable (frame_field "target" data)
                 (Standalone.clients w) (Standalone.readyState w) ->
      let w' := Standalone.on_message ws data w in
      Standalone.sent w' = Standalone.sent w ++ [(ws, MError)] /\
      Standalone.delivered ws w' = Standalone.delivered ws w ++ [MError] /\
      (forall c, c <> ws -> Standalone.delivered c w' = Standalone.delivered c w) /\
      Standalone.clients w' = Standalone.clients w) /\
  (forall (ws : socket) (data : frame) (w : StoreBacked.world),
      frame_type data = Some "signal" ->
      unroutable (frame_field "targetAgentId" data)
                 (StoreBacked.activeConnections w) (StoreBacked.readyState w) ->
      StoreBacked.on_message ws data w = w).
Proof.
  split; intros ws data w Ht Hu.
  - intros w'.
    assert (Hw : w' = Standalone.send ws MError w).
    { subst w'. rewrite standalone_signal_message by assumption.
      now apply unroutable_standalone_signal. }
    assert (Hsent : Standalone.sent w' = Standalone.sent w ++ repeat (ws, MError) 1)
      by now rewrite Hw.
    destruct (inbox_grows _ _ _ _ _ Hsent) as [Hto Hothers].
    repeat split; try assumption. now rewrite Hw.
  - rewrite store_signal_message by assumption.
    now apply unroutable_store_signal.
Qed.

Lemma C4_unroutable_target_witness :
  (let w := Standalone.run Standalone.init [Standalone.Connection 1000 0] in
   let data := Parsed (JObj [("type", JStr "signal"); ("target", JStr "B")]) in
   let w' := Standalone.on_message 0 data w in
   Standalone.sent w' = Standalone.sent w ++ [(0, MError)] /\
   Standalone.delivered 0 w' = Standalone.delivered 0 w ++ [MError] /\
   (forall c, c <> 0 -> Standalone.delivered c w' = Standalone.delivered c w) /\
   Standalone.clients w' = Standalone.clients w) /\
  (let w := StoreBacked.run StoreBacked.init [StoreBacked.Connection 0] in
   let data := Parsed (JObj [("type", JStr "signal");
                             ("targetAgentId", JStr "B")]) in
   StoreBacked.on_message 0 data w = w).
Proof.
  split.
  - apply (proj1 C4_unroutable_target); [reflexivity | now left].
  - apply (proj2 C4_unroutable_target); [reflexivity | now left].
Defined.

Lemma standalone_forward (ws Z : socket) (target from sig : option json)
    (w : Standalone.world) :
  map_get_value target (Standalone.clients w) = Some Z ->
  Standalone.readyState w Z = OPEN ->
  Standalone.signal ws target from sig w =
  Standalone.send Z (MSignal from sig) w.
Proof. unfold Standalone.signal. now intros -> ->. Qed.

Lemma store_forward (ws Z : socket) (target from sig : option json)
    (w : StoreBacked.world) :
  map_get_value target (StoreBacked.activeConnections w) = Some Z ->
  StoreBacked.readyState w Z = OPEN ->
  StoreBacked.signal ws target from sig w =
  StoreBacked.send Z (MSignal from sig) w.
Proof. unfold StoreBacked.signal. now intros -> ->. Qed.









End Routing.

(** * Malformed input *)

Section Malformed.

(** C6. A frame that does not parse, or parses to a value whose [type] is
    none of [register], [signal] and [ping] (no [type] at all, a [type] that
    is not a string, [null], a number, ...), changes nothing in either
    relay: the map, the closure variables, the ready states and the sent
    messages stay as they were.  The handler returns normally: what is
    thrown inside the [try] is caught. *)
Theorem C6_malformed_frame_ignored (ws : socket) (data : frame) :
  known_type data = false ->
  (forall w, Standalone.on_message ws data w = w) /\
  (forall w, StoreBacked.on_message ws data w = w).
Proof.
  intros Hk.
  assert (H : data = Unparsable \/ (exists j, data = Parsed j /\
                 match get_field "type" j with
                 | Normal (Some (JStr type)) =>
                     String.eqb type "register" = false /\
                     String.eqb type "signal" = false /\
                     String.eqb type "ping" = false
                 | _ => True
                 end)).
  { destruct data as [|j]; [now left|]. right. exists j. split; [reflexivity|].
    destruct j as [| | | | |fields]; simpl; trivial.
    unfold known_type in Hk. simpl in Hk.
    destruct (own_field "type" fields) as [[| | |type| |]|]; trivial.
    apply orb_false_elim in Hk as [Hk Hp].
    apply orb_false_elim in Hk as [Hr Hs]. auto. }
  destruct H as [->|[j [-> Hj]]]; [now split|].
  unfold Standalone.on_message, StoreBacked.on_message,
    Standalone.dispatch, StoreBacked.dispatch.
  destruct (get_field "type" j) as [[[| | |type| |]|]|]; try now split.
  destruct Hj as [-> [-> ->]]. now split.
Qed.

Lemma C6_malformed_frame_ignored_witness :
  (forall w, Standalone.on_message 0 (Parsed (JObj [("type", JStr "hello")])) w = w) /\
  (forall w, StoreBacked.on_message 0 (Parsed (JObj [("type", JStr "hello")])) w = w).
Proof.
  apply (C6_malformed_frame_ignored 0 (Parsed (JObj [("type", JStr "hello")]))).
  reflexivity.
Defined.

End Malformed.

(** * Registering the same identifier twice *)

Section Idempotence.

Lemma map_delete_app_last (k : key) (v : socket) (m : jsmap) :
  map_get k m = None -> map_delete k (m ++ [(k, v)]) = m.
Proof.
  induction m as [|[k' v'] m IH]; simpl.
  - now rewrite key_eqb_refl.
  - destruct (key_eqb k' k); [discriminate|]. intros H. now rewrite IH.
Qed.

(** Registering [k] again on the same socket of src/server.js rebuilds the
    same map, whether or not [k] is the socket's temporary id. *)
Lemma standalone_register_twice (old k : key) (ws : socket) (m : jsmap) :
  NoDup (keys m) ->
  let m1 := map_set k ws (map_delete old m) in
  map_set k ws (map_delete old m1) = m1.
Proof.
  intros Hnd m1. subst m1.
  destruct (key_eqb_spec old k) as [->|Hne].
  - pose proof (map_get_delete_same k m Hnd) as Hnone.
    rewrite (map_set_absent k ws _ Hnone).
    rewrite map_delete_app_last by assumption.
    now apply map_set_absent.
  - rewrite (map_delete_absent old).
    + apply map_set_present, map_get_set_same.
    + rewrite map_get_set_other by congruence.
      now apply map_get_delete_same.
Qed.

(** C7. In every run of either relay, two [register] messages in a row for
    the same identifier on the same socket leave the map with exactly one
    entry for the identifier, bound to that socket; the second message
    leaves the map as the first one made it. *)
Theorem C7_register_twice_idempotent (ws : socket) (id : string) (data : frame) :
  frame_type data = Some "register" ->
  frame_field "agentId" data = Some (JStr id) ->
  (forall trace,
      let w1 := Standalone.on_message ws data (Standalone.run Standalone.init trace) in
      let w2 := Standalone.on_message ws data w1 in
      entries_for (KStr id) (Standalone.clients w2) = 1 /\
      Standalone.lookup id w2 = Some ws /\
      Standalone.clients w2 = Standalone.clients w1) /\
  (forall trace,
      let w1 := StoreBacked.on_message ws data (StoreBacked.run StoreBacked.init trace) in
      let w2 := StoreBacked.on_message ws data w1 in
      entries_for (KStr id) (StoreBacked.activeConnections w2) = 1 /\
      StoreBacked.lookup id w2 = Some ws /\
      StoreBacked.activeConnections w2 = StoreBacked.activeConnections w1).
Proof.
  intros Ht Ha. split; intros trace w1 w2; subst w1 w2.
  - pose proof (standalone_keys_unique trace) as Hnd.
    set (w := Standalone.run Standalone.init trace) in *.
    rewrite !standalone_register_message by assumption. rewrite Ha.
    unfold Standalone.lookup, Standalone.register. simpl.
    rewrite standalone_register_twice by assumption.
    rewrite entries_for_get
      by now apply NoDup_map_set, NoDup_map_delete.
    now rewrite map_get_set_same.
  - pose proof (store_keys_unique trace) as Hnd.
    set (w := StoreBacked.run StoreBacked.init trace) in *.
    rewrite !store_register_message by assumption. rewrite Ha.
    unfold StoreBacked.lookup. rewrite !store_register_string. simpl.
    rewrite (map_set_present (KStr id) ws (map_set (KStr id) ws _))
      by apply map_get_set_same.
    rewrite entries_for_get by now apply NoDup_map_set.
    now rewrite map_get_set_same.
Qed.

Lemma C7_register_twice_idempotent_witness :
  (forall trace,
      let w1 := Standalone.on_message 0 (register_frame "A")
                  (Standalone.run Standalone.init trace) in
      let w2 := Standalone.on_message 0 (register_frame "A") w1 in
      entries_for (KStr "A") (Standalone.clients w2) = 1 /\
      Standalone.lookup "A" w2 = Some 0 /\
      Standalone.clients w2 = Standalone.clients w1) /\
  (forall trace,
      let w1 := StoreBacked.on_message 0 (register_frame "A")
                  (StoreBacked.run StoreBacked.init trace) in
      let w2 := StoreBacked.on_message 0 (register_frame "A") w1 in
      entries_for (KStr "A") (StoreBacked.activeConnections w2) = 1 /\
      StoreBacked.lookup "A" w2 = Some 0 /\
      StoreBacked.activeConnections w2 = StoreBacked.activeConnections w1).
Proof.
  apply (C7_register_twice_idempotent 0 "A" (register_frame "A")); reflexivity.
Defined.

End Idempotence.

(** * Temporary client ids of src/server.js *)

Section TemporaryIds.

Import Standalone.

(** C9. Accepting a socket at time [now] gives it the temporary id
    [Date.now().toString()], sends it exactly one message, the [connected]
    message with that id, binds the id to the socket in the map and finds
    the socket open; a signal for that id, from any sender, is forwarded to
    the socket right away, before any [register]. *)
Theorem C9_connection_bound_at_once (now : Z) (ws sender : socket)
    (data : frame) (w : world) :
  frame_type data = Some "signal" ->
  frame_field "target" data = Some (JStr (temporary_id now)) ->
  let w' := on_connection now ws w in
  clientId w' ws = temporary_id now /\
  sent w' = sent w ++ [(ws, MConnected (temporary_id now))] /\
  lookup (temporary_id now) w' = Some ws /\
  readyState w' ws = OPEN /\
  sent (on_message sender data w') =
    sent w' ++ [(ws, MSignal (frame_field "from" data) (frame_field "signal" data))].
Proof.
  intros Ht Htarget w'.
  assert (Hid : clientId w' ws = temporary_id now).
  { simpl. unfold update. now rewrite Nat.eqb_refl. }
  assert (Hget : lookup (temporary_id now) w' = Some ws).
  { unfold lookup. simpl. apply map_get_set_same. }
  assert (Hopen : readyState w' ws = OPEN).
  { simpl. unfold update. now rewrite Nat.eqb_refl. }
  repeat split; try assumption.
  rewrite standalone_signal_message by assumption.
  rewrite standalone_forward with (Z := ws);
    [reflexivity | now rewrite Htarget | assumption].
Qed.

Lemma C9_connection_bound_at_once_witness :
  let data := Parsed (JObj [("type", JStr "signal"); ("target", JStr "1000");
                            ("from", JStr "A"); ("signal", JStr "offer")]) in
  let w' := on_connection 1000 1 init in
  clientId w' 1 = temporary_id 1000 /\
  sent w' = sent init ++ [(1, MConnected (temporary_id 1000))] /\
  lookup (temporary_id 1000) w' = Some 1 /\
  readyState w' 1 = OPEN /\
  sent (on_message 0 data w') =
    sent w' ++ [(1, MSignal (frame_field "from" data) (frame_field "signal" data))].
Proof.
  apply (C9_connection_bound_at_once 1000 1 0); reflexivity.
Defined.

(** C10, as the specification states it, fails when the first socket is
    gone before the second is accepted.  Socket 0 is accepted at clock
    value 1000 and closes, and socket 1 is accepted at 1000 as well: the
    two sockets were assigned the same temporary id, but the second accept
    overwrites no entry of the first, and the first is not open. *)
Lemma C10_temporary_id_collision_counterexample :
  let w1 := run init [Connection 1000 0; Close 0] in
  let w2 := on_connection 1000 1 w1 in
  clientId w2 0 = "1000" /\
  clientId w2 1 = "1000" /\
  lookup "1000" w1 = None /\
  readyState w2 0 = CLOSED /\
  lookup "1000" w2 = Some 1.
Proof. repeat split. Qed.

(** C10, amended.  The temporary id is the decimal text of [Date.now()]:
    two clock values give the same id exactly when they are equal, so two
    sockets accepted in the same millisecond share one.  In every run,
    when [X] holds the id of clock value [now], is open and is still bound
    under it, and another socket [Y] is accepted at [now], both hold the
    same id, the id resolves to [Y] afterwards, [X] is still open and has
    no entry under the id any more, and a signal for the id is forwarded
    to [Y]. *)
Theorem C10_temporary_id_collision (now : Z) (X Y sender : socket)
    (trace : list event) (data : frame) :
  X <> Y ->
  frame_type data = Some "signal" ->
  frame_field "target" data = Some (JStr (temporary_id now)) ->
  let w := run init trace in
  clientId w X = temporary_id now ->
  lookup (temporary_id now) w = Some X ->
  readyState w X = OPEN ->
  let w2 := on_connection now Y w in
  (forall other, temporary_id other = temporary_id now <-> other = now) /\
  clientId w2 X = temporary_id now /\
  clientId w2 Y = temporary_id now /\
  lookup (temporary_id now) w2 = Some Y /\
  readyState w2 X = OPEN /\
  ~ In (KStr (temporary_id now), X) (clients w2) /\
  sent (on_message sender data w2) =
    sent w2 ++ [(Y, MSignal (frame_field "from" data) (frame_field "signal" data))].
Proof.
  intros Hne Ht Htarget w Hid Hbound Hopen w2.
  assert (HXY : Nat.eqb X Y = false) by now apply Nat.eqb_neq.
  assert (Hget : lookup (temporary_id now) w2 = Some Y).
  { unfold lookup. simpl. apply map_get_set_same. }
  assert (Hnd : NoDup (keys (clients w2))).
  { apply (step_keys_unique w (Connection now Y)).
    apply standalone_keys_unique. }
  split; [|repeat split].
  - intros other. split; [apply temporary_id_inj | now intros ->].
  - simpl. unfold update. now rewrite HXY.
  - simpl. unfold update. now rewrite Nat.eqb_refl.
  - assumption.
  - simpl. unfold update. now rewrite HXY.
  - intros Hin. apply in_map_get in Hin; [|assumption].
    unfold lookup in Hget. congruence.
  - rewrite standalone_signal_message by assumption.
    rewrite standalone_forward with (Z := Y);
      [reflexivity | now rewrite Htarget | ].
    simpl. unfold update. now rewrite Nat.eqb_refl.
Qed.

Lemma C10_temporary_id_collision_witness :
  let data := Parsed (JObj [("type", JStr "signal"); ("target", JStr "1000")]) in
  let w := run init [Connection 1000 0; Connection 1001 2;
                     Message 2 (register_frame "B"); Close 2] in
  let w2 := on_connection 1000 1 w in
  temporary_id 1000 = "1000" /\
  (forall other, temporary_id other = temporary_id 1000 <-> other = 1000%Z) /\
  clientId w2 0 = temporary_id 1000 /\
  clientId w2 1 = temporary_id 1000 /\
  lookup (temporary_id 1000) w2 = Some 1 /\
  readyState w2 0 = OPEN /\
  ~ In (KStr (temporary_id 1000), 0) (clients w2) /\
  sent (on_message 0 data w2) =
    sent w2 ++ [(1, MSignal (frame_field "from" data) (frame_field "signal" data))].
Proof.
  split; [reflexivity|].
  apply (C10_temporary_id_collision 1000 0 1 0
           [Connection 1000 0; Connection 1001 2;
            Message 2 (register_frame "B"); Close 2]);
    [discriminate | reflexivity | reflexivity | reflexivity | reflexivity
    | reflexivity].
Defined.

End TemporaryIds.

(** * Closing a socket that never registered *)

Section CloseUnregistered.

Lemma in_map_set (e : key * socket) (k : key) (v : socket) (m : jsmap) :
  In e (map_set k v m) -> e = (k, v) \/ In e m.
Proof.
  induction m as [|[k' v'] m IH]; simpl.
  - intros [<-|[]]. now left.
  - destruct (key_eqb_spec k' k) as [->|Hne]; simpl.
    + intros [<-|H]; auto.
    + intros [<-|H]; auto. destruct (IH H); auto.
Qed.

Lemma remove_first_of_absent (ws : socket) (m : jsmap) :
  (forall k, ~ In (k, ws) m) -> Standalone.remove_first_of ws m = m.
Proof.
  induction m as [|[k v] m IH]; simpl; [reflexivity|].
  intros Hno. destruct (Nat.eqb_spec v ws) as [->|Hv].
  - exfalso. apply (Hno k). now left.
  - f_equal. apply IH. intros k' Hin. apply (Hno k'). now right.
Qed.

(** When every entry of [ws] sits under the key [kc], the close loop is a
    conditional delete of [kc]. *)
Lemma remove_first_of_single (ws : socket) (kc : key) (m : jsmap) :
  NoDup (keys m) ->
  (forall k, In (k, ws) m -> k = kc) ->
  Standalone.remove_first_of ws m = unbind_if_current kc ws m.
Proof.
  unfold unbind_if_current.
  induction m as [|[k v] m IH]; simpl; [reflexivity|].
  intros Hnd Hall. inversion Hnd as [|? ? Hk Hnd']; subst.
  destruct (Nat.eqb_spec v ws) as [->|Hv].
  - rewrite (Hall k) by now left.
    rewrite !key_eqb_refl. now rewrite Nat.eqb_refl.
  - destruct (key_eqb_spec k kc) as [->|Hne].
    + apply Nat.eqb_neq in Hv. rewrite Hv. f_equal.
      apply remove_first_of_absent. intros k Hin.
      assert (k = kc) by (apply Hall; now right). subst k.
      apply Hk. change kc with (fst (kc, ws)). now apply in_map.
    + rewrite IH; [|assumption|intros k' Hin; apply Hall; now right].
      destruct (map_get kc m) as [s|]; [|reflexivity].
      now destruct (Nat.eqb s ws).
Qed.

Lemma clientId_on_message (ws c : socket) (data : frame) (w : Standalone.world) :
  Standalone.clientId (Standalone.on_message ws data w) c = Standalone.clientId w c.
Proof.
  unfold Standalone.on_message, Standalone.dispatch.
  destruct data as [|message]; [reflexivity|].
  destruct (get_field "type" message) as [[[| | |type| |]|]|]; try reflexivity.
  destruct (String.eqb type "register").
  { destruct (get_field "agentId" message) as [agentId|]; [|reflexivity].
    unfold Standalone.register. now destruct (prim_key agentId). }
  destruct (String.eqb type "signal").
  { destruct (get_field "target" message) as [target|],
      (get_field "from" message), (get_field "signal" message);
      try reflexivity.
    unfold Standalone.signal.
    destruct (map_get_value target (Standalone.clients w)) as [t|];
      [|reflexivity].
    now destruct (is_open (Standalone.readyState w t)). }
  now destruct (String.eqb type "ping").
Qed.

Lemma clients_on_other_message (ws : socket) (data : frame) (w : Standalone.world) :
  is_register data = false ->
  Standalone.clients (Standalone.on_message ws data w) = Standalone.clients w.
Proof.
  intros Hr. unfold Standalone.on_message, Standalone.dispatch.
  destruct data as [|message]; [reflexivity|].
  destruct message as [| | | | |fields]; try reflexivity. simpl.
  unfold is_register in Hr. simpl in Hr.
  destruct (own_field "type" fields) as [[| | |type| |]|]; try reflexivity.
  rewrite Hr.
  destruct (String.eqb type "signal"); [apply clients_signal|].
  now destruct (String.eqb type "ping").
Qed.

(** A step that neither accepts [ws] nor registers on it adds no entry for
    [ws] and keeps its [clientId]. *)
Lemma step_other (ws : socket) (w : Standalone.world) (e : Standalone.event) :
  ~ In ws (accepted [e]) ->
  registers_on ws e = false ->
  Standalone.clientId (Standalone.step w e) ws = Standalone.clientId w ws /\
  (forall k, In (k, ws) (Standalone.clients (Standalone.step w e)) ->
             In (k, ws) (Standalone.clients w)).
Proof.
  intros Hacc Hreg. destruct e as [now ws'|ws' data|ws']; simpl in *.
  - assert (Hne : ws <> ws') by (intros ->; apply Hacc; now left). split.
    + unfold update. apply Nat.eqb_neq in Hne. now rewrite Hne.
    + intros k Hin. apply in_map_set in Hin as [[= _ E]|Hin];
        [congruence | assumption].
  - split; [apply clientId_on_message|]. intros k.
    destruct (is_register data) eqn:Hd.
    + rewrite andb_true_r in Hreg. apply Nat.eqb_neq in Hreg.
      destruct (clients_on_message ws' data w) as [->|[k' ->]]; [trivial|].
      intros Hin. apply in_map_set in Hin as [[= _ E]|Hin]; [congruence|].
      now apply in_map_delete in Hin.
    + now rewrite clients_on_other_message.
  - split; [reflexivity|]. intros k. apply in_remove_first_of.
Qed.

Lemma accepted_cons (e : Standalone.event) (trace : list Standalone.event) :
  accepted (e :: trace) = accepted [e] ++ accepted trace.
Proof. unfold accepted. simpl. now rewrite app_nil_r. Qed.

Lemma run_cons (w : Standalone.world) (e : Standalone.event)
    (trace : list Standalone.event) :
  Standalone.run w (e :: trace) = Standalone.run (Standalone.step w e) trace.
Proof. reflexivity. Qed.

(** After [ws] was accepted, and while it does not register, its entries
    all sit under its temporary id. *)
Lemma run_keeps_single (ws : socket) (trace : list Standalone.event)
    (w : Standalone.world) :
  ~ In ws (accepted trace) ->
  existsb (registers_on ws) trace = false ->
  (forall k, In (k, ws) (Standalone.clients w) ->
             k = KStr (Standalone.clientId w ws)) ->
  forall k, In (k, ws) (Standalone.clients (Standalone.run w trace)) ->
            k = KStr (Standalone.clientId (Standalone.run w trace) ws).
Proof.
  revert w. induction trace as [|e trace IH]; intros w Hacc Hreg Hinv;
    [assumption|].
  rewrite run_cons. simpl in Hreg. apply orb_false_elim in Hreg as [He Hreg].
  rewrite accepted_cons in Hacc.
  rewrite in_app_iff in Hacc.
  destruct (step_other ws w e) as [Hid Hin]; [tauto | assumption |].
  apply IH; [tauto | assumption |].
  intros k Hk. rewrite Hid. auto.
Qed.

Lemma run_single (ws : socket) (trace : list Standalone.event)
    (w : Standalone.world) :
  NoDup (accepted trace) ->
  existsb (registers_on ws) trace = false ->
  (forall k, ~ In (k, ws) (Standalone.clients w)) ->
  forall k, In (k, ws) (Standalone.clients (Standalone.run w trace)) ->
            k = KStr (Standalone.clientId (Standalone.run w trace) ws).
Proof.
  revert w. induction trace as [|e trace IH]; intros w Hnd Hreg Hno.
  - intros k Hin. now apply Hno in Hin.
  - rewrite run_cons. simpl in Hreg. apply orb_false_elim in Hreg as [He Hreg].
    rewrite accepted_cons in Hnd.
    destruct (in_dec Nat.eq_dec ws (accepted [e])) as [Hin|Hout].
    + destruct e as [now ws'|ws' data|ws']; simpl in Hin; try tauto.
      destruct Hin as [->|[]]. simpl in Hnd.
      inversion Hnd as [|? ? Hfresh Hnd']; subst.
      apply run_keeps_single; [assumption | assumption |].
      intros k Hk. simpl in *. unfold update. rewrite Nat.eqb_refl.
      apply in_map_set in Hk as [[= ->]|Hk]; [reflexivity|].
      now apply Hno in Hk.
    + destruct (step_other ws w e Hout He) as [_ Hin].
      apply IH; [now apply NoDup_app_remove_l in Hnd | assumption |].
      intros k Hk. apply (Hno k). auto.
Qed.

(** C8, as the specification states it, fails on src/server.js: socket 0 is
    accepted at time 1000 and sends nothing; the map holds its temporary id,
    and the close handler removes that entry, so the close does change the
    map. *)
Lemma C8_close_unregistered_counterexample :
  let trace := [Standalone.Connection 1000 0] in
  let w := Standalone.run Standalone.init trace in
  existsb (registers_on 0) trace = false /\
  Standalone.clients w = [(KStr "1000", 0)] /\
  Standalone.clients (Standalone.on_close 0 w) = [].
Proof. repeat split. Qed.

(** C8, amended.  For a socket that sent no [register] message: in
    src/unnamed/part_000 its close leaves the map exactly as it was; in
    src/server.js, where every socket is accepted once, its close removes
    the entry of its temporary id if that entry is still bound to this
    socket, and nothing else.  Both handlers return normally. *)
Theorem C8_close_unregistered (ws : socket) :
  (forall trace,
      NoDup (accepted trace) ->
      existsb (registers_on ws) trace = false ->
      let w := Standalone.run Standalone.init trace in
      Standalone.clients (Standalone.on_close ws w) =
      unbind_if_current (KStr (Standalone.clientId w ws)) ws (Standalone.clients w)) /\
  (forall trace,
      existsb (store_registers_on ws) trace = false ->
      let w := StoreBacked.run StoreBacked.init trace in
      StoreBacked.activeConnections (StoreBacked.on_close ws w) =
      StoreBacked.activeConnections w).
Proof.
  split.
  - intros trace Hnd Hreg w. simpl.
    apply remove_first_of_single; [apply standalone_keys_unique|].
    apply run_single; [assumption | assumption | intros k []].
  - intros trace Hreg w. subst w. unfold StoreBacked.on_close.
    now rewrite (store_unregistered_null trace ws StoreBacked.init eq_refl Hreg).
Qed.

Lemma C8_close_unregistered_witness :
  (let trace := [Standalone.Connection 1000 0; Standalone.Connection 1001 1] in
   let w := Standalone.run Standalone.init trace in
   Standalone.clients (Standalone.on_close 0 w) =
   unbind_if_current (KStr (Standalone.clientId w 0)) 0 (Standalone.clients w)) /\
  (let trace := [StoreBacked.Connection 0; StoreBacked.Connection 1;
                 StoreBacked.Message 1 (register_frame "B")] in
   let w := StoreBacked.run StoreBacked.init trace in
   StoreBacked.activeConnections (StoreBacked.on_close 0 w) =
   StoreBacked.activeConnections w).
Proof.
  split.
  - apply (proj1 (C8_close_unregistered 0)
             [Standalone.Connection 1000 0; Standalone.Connection 1001 1]);
      [repeat constructor; simpl; intuition discriminate | reflexivity].
  - apply (proj2 (C8_close_unregistered 0)
             [StoreBacked.Connection 0; StoreBacked.Connection 1;
              StoreBacked.Message 1 (register_frame "B")]).
    reflexivity.
Defined.

End CloseUnregistered.

(** * Both relays: what a message handler can do *)

Section Handlers.

Lemma standalone_on_message_by_type (ws : socket) (data : frame)
    (w : Standalone.world) :
  Standalone.on_message ws data w =
  match frame_type data with
  | Some type =>
      if String.eqb type "register"
      then Standalone.register ws (frame_field "agentId" data) w
      else if String.eqb type "signal"
      then Standalone.signal ws (frame_field "target" data)
             (frame_field "from" data) (frame_field "signal" data) w
      else if String.eqb type "ping" then Standalone.send ws MPong w
      else w
  | None => w
  end.
Proof.
  unfold Standalone.on_message, Standalone.dispatch.
  destruct data as [|[| | | | |fields]]; simpl; try reflexivity.
  destruct (own_field "type" fields) as [[| | |type| |]|]; try reflexivity.
  destruct (String.eqb type "register"); [reflexivity|].
  destruct (String.eqb type "signal"); [reflexivity|].
  now destruct (String.eqb type "ping").
Qed.

Lemma store_on_message_by_type (ws : socket) (data : frame)
    (w : StoreBacked.world) :
  StoreBacked.on_message ws data w =
  match frame_type data with
  | Some type =>
      if String.eqb type "register"
      then StoreBacked.register ws (frame_field "agentId" data) w
      else if String.eqb type "signal"
      then StoreBacked.signal ws (frame_field "targetAgentId" data)
             (frame_field "fromAgentId" data) (frame_field "signal" data) w
      else if String.eqb type "ping" then StoreBacked.send ws MPong w
      else w
  | None => w
  end.
Proof.
  unfold StoreBacked.on_message, StoreBacked.dispatch.
  destruct data as [|[| | | | |fields]]; simpl; try reflexivity.
  destruct (own_field "type" fields) as [[| | |type| |]|]; try reflexivity.
  destruct (String.eqb type "register"); [reflexivity|].
  destruct (String.eqb type "signal"); [reflexivity|].
  now destruct (String.eqb type "ping").
Qed.

(** A [ping] is answered with one [pong], to the sender only, and changes
    neither the map nor any socket's state, in both relays. *)
Theorem ping_answered_with_one_pong (ws : socket) (data : frame) :
  frame_type data = Some "ping" ->
  (forall w,
      let w' := Standalone.on_message ws data w in
      Standalone.delivered ws w' = Standalone.delivered ws w ++ [MPong] /\
      (forall c, c <> ws -> Standalone.delivered c w' = Standalone.delivered c w) /\
      Standalone.clients w' = Standalone.clients w /\
      (forall c, Standalone.readyState w' c = Standalone.readyState w c)) /\
  (forall w,
      let w' := StoreBacked.on_message ws data w in
      StoreBacked.delivered ws w' = StoreBacked.delivered ws w ++ [MPong] /\
      (forall c, c <> ws -> StoreBacked.delivered c w' = StoreBacked.delivered c w) /\
      StoreBacked.activeConnections w' = StoreBacked.activeConnections w /\
      (forall c, StoreBacked.readyState w' c = StoreBacked.readyState w c) /\
      (forall c, StoreBacked.connectedAgentId w' c = StoreBacked.connectedAgentId w c)).
Proof.
  intros Ht. split; intros w w'; subst w'.
  - rewrite standalone_on_message_by_type, Ht. simpl.
    destruct (inbox_grows (Standalone.sent w)
                (Standalone.sent (Standalone.send ws MPong w)) ws MPong 1 eq_refl)
      as [Hto Hothers].
    repeat split; assumption.
  - rewrite store_on_message_by_type, Ht. simpl.
    destruct (inbox_grows (StoreBacked.sent w)
                (StoreBacked.sent (StoreBacked.send ws MPong w)) ws MPong 1 eq_refl)
      as [Hto Hothers].
    repeat split; assumption.
Qed.

Lemma ping_answered_with_one_pong_witness :
  (forall w,
      let w' := Standalone.on_message 0 (Parsed (JObj [("type", JStr "ping")])) w in
      Standalone.delivered 0 w' = Standalone.delivered 0 w ++ [MPong] /\
      (forall c, c <> 0 -> Standalone.delivered c w' = Standalone.delivered c w) /\
      Standalone.clients w' = Standalone.clients w /\
      (forall c, Standalone.readyState w' c = Standalone.readyState w c)) /\
  (forall w,
      let w' := StoreBacked.on_message 0 (Parsed (JObj [("type", JStr "ping")])) w in
      StoreBacked.delivered 0 w' = StoreBacked.delivered 0 w ++ [MPong] /\
      (forall c, c <> 0 -> StoreBacked.delivered c w' = StoreBacked.delivered c w) /\
      StoreBacked.activeConnections w' = StoreBacked.activeConnections w /\
      (forall c, StoreBacked.readyState w' c = StoreBacked.readyState w c) /\
      (forall c, StoreBacked.connectedAgentId w' c = StoreBacked.connectedAgentId w c)).
Proof.
  apply (ping_answered_with_one_pong 0 (Parsed (JObj [("type", JStr "ping")]))).
  reflexivity.
Defined.

(** Whatever frame arrives on [ws], src/server.js sends at most one message
    for it and changes no socket's state or temporary id.  A forwarded
    signal goes to the socket the target is bound to, and only if that
    socket is open; every other message ([registered], [error], [pong])
    goes to the sender. *)
Theorem standalone_message_discipline (ws : socket) (data : frame)
    (w : Standalone.world) :
  let w' := Standalone.on_message ws data w in
  (forall c, Standalone.readyState w' c = Standalone.readyState w c) /\
  (forall c, Standalone.clientId w' c = Standalone.clientId w c) /\
  (Standalone.sent w' = Standalone.sent w \/
   exists c m,
     Standalone.sent w' = Standalone.sent w ++ [(c, m)] /\
     match m with
     | MSignal _ _ =>
         Standalone.readyState w c = OPEN /\
         map_get_value (frame_field "target" data) (Standalone.clients w) = Some c
     | MConnected _ => False
     | _ => c = ws
     end).
Proof.
  intros w'. subst w'. rewrite standalone_on_message_by_type.
  destruct (frame_type data) as [type|]; [|now repeat split; try left].
  destruct (String.eqb type "register").
  { unfold Standalone.register.
    destruct (prim_key (frame_field "agentId" data)); simpl;
      (repeat split; try reflexivity; right;
       exists ws, (MRegistered (frame_field "agentId" data)); now split). }
  destruct (String.eqb type "signal").
  { unfold Standalone.signal.
    destruct (map_get_value (frame_field "target" data) (Standalone.clients w))
      as [t|] eqn:Hget.
    - destruct (Standalone.readyState w t) eqn:Hrs; simpl;
        repeat split; try reflexivity; right.
      2: { exists t, (MSignal (frame_field "from" data) (frame_field "signal" data)).
           now repeat split. }
      all: exists ws, MError; now split.
    - simpl. repeat split; try reflexivity. right. exists ws, MError. now split. }
  destruct (String.eqb type "ping").
  - simpl. repeat split; try reflexivity. right. exists ws, MPong. now split.
  - repeat split; try reflexivity. now left.
Qed.

(** The same for src/unnamed/part_000, which sends no [error]: at most one
    message per frame, a signal only to the open socket its target is bound
    to, [registered] and [pong] only to the sender, and no change of any
    socket's state or of another socket's [connectedAgentId]. *)
Theorem store_message_discipline (ws : socket) (data : frame)
    (w : StoreBacked.world) :
  let w' := StoreBacked.on_message ws data w in
  (forall c, StoreBacked.readyState w' c = StoreBacked.readyState w c) /\
  (forall c, c <> ws ->
             StoreBacked.connectedAgentId w' c = StoreBacked.connectedAgentId w c) /\
  (StoreBacked.sent w' = StoreBacked.sent w \/
   exists c m,
     StoreBacked.sent w' = StoreBacked.sent w ++ [(c, m)] /\
     match m with
     | MSignal _ _ =>
         StoreBacked.readyState w c = OPEN /\
         map_get_value (frame_field "targetAgentId" data)
                       (StoreBacked.activeConnections w) = Some c
     | MRegistered _ => c = ws
     | MPong => c = ws
     | _ => False
     end).
Proof.
  intros w'. subst w'. rewrite store_on_message_by_type.
  destruct (frame_type data) as [type|]; [|now repeat split; try left].
  destruct (String.eqb type "register").
  { unfold StoreBacked.register.
    destruct (prim_key (frame_field "agentId" data)),
      (printable_value (frame_field "agentId" data)); simpl;
      (split; [reflexivity|]; split;
       [ intros c Hc; unfold update; apply Nat.eqb_neq in Hc; now rewrite Hc |]);
      try (now left);
      right; exists ws, (MRegistered (frame_field "agentId" data)); now split. }
  destruct (String.eqb type "signal").
  { unfold StoreBacked.signal.
    destruct (map_get_value (frame_field "targetAgentId" data)
                (StoreBacked.activeConnections w)) as [t|] eqn:Hget.
    - destruct (StoreBacked.readyState w t) eqn:Hrs; simpl;
        repeat split; try reflexivity; try (now left).
      right.
      exists t, (MSignal (frame_field "fromAgentId" data) (frame_field "signal" data)).
      now repeat split.
    - repeat split; try reflexivity. now left. }
  destruct (String.eqb type "ping").
  - simpl. repeat split; try reflexivity. right. exists ws, MPong. now split.
  - repeat split; try reflexivity. now left.
Qed.

(** The relays do not check who sends a signal: the forwarded message
    carries the [from] of the frame, so the same frame has the same effect
    whichever socket it arrives on.  (In src/server.js an unroutable signal
    is answered to its sender, so there the target has to be routable.) *)
Theorem forwarded_signal_ignores_sender (s1 s2 : socket) (data : frame) :
  frame_type data = Some "signal" ->
  (forall w Z,
      map_get_value (frame_field "target" data) (Standalone.clients w) = Some Z ->
      Standalone.readyState w Z = OPEN ->
      Standalone.on_message s1 data w = Standalone.on_message s2 data w) /\
  (forall w, StoreBacked.on_message s1 data w = StoreBacked.on_message s2 data w).
Proof.
  intros Ht. split.
  - intros w Z Hget Hopen. rewrite !standalone_on_message_by_type, Ht. simpl.
    now rewrite !standalone_forward with (Z := Z).
  - intros w. rewrite !store_on_message_by_type, Ht. simpl.
    unfold StoreBacked.signal.
    destruct (map_get_value _ _) as [t|]; [|reflexivity].
    now destruct (is_open (StoreBacked.readyState w t)).
Qed.

Lemma forwarded_signal_ignores_sender_witness :
  let data := Parsed (JObj [("type", JStr "signal"); ("target", JStr "B");
                            ("targetAgentId", JStr "B");
                            ("from", JStr "somebody else")]) in
  let w := Standalone.run Standalone.init
             [Standalone.Connection 1000 0; Standalone.Connection 1001 1;
              Standalone.Connection 1002 2;
              Standalone.Message 2 (register_frame "B")] in
  Standalone.on_message 0 data w = Standalone.on_message 1 data w /\
  (forall w, StoreBacked.on_message 0 data w = StoreBacked.on_message 1 data w).
Proof.
  pose proof (forwarded_signal_ignores_sender 0 1
    (Parsed (JObj [("type", JStr "signal"); ("target", JStr "B");
                   ("targetAgentId", JStr "B");
                   ("from", JStr "somebody else")])) eq_refl) as [Hs Hb].
  split.
  - apply (Hs _ 2); reflexivity.
  - exact Hb.
Defined.

End Handlers.

(** * Registering and closing: which entries change *)

Section EntryEffects.

Lemma bound_count_none (ws : socket) (m : jsmap) :
  bound_count ws m = 0 <-> (forall k, ~ In (k, ws) m).
Proof.
  unfold bound_count. induction m as [|[k v] m IH]; simpl.
  - split; [intros _ k [] | reflexivity].
  - destruct (Nat.eqb_spec v ws) as [->|Hne]; simpl.
    + split; [discriminate|]. intros H. exfalso. apply (H k). now left.
    + rewrite IH. split.
      * intros H k' [[= _ E]|Hin]; [congruence | now apply (H k')].
      * intros H k' Hin. apply (H k'). now right.
Qed.




Lemma bound_count_remove_first_self (c : socket) (m : jsmap) :
  bound_count c (Standalone.remove_first_of c m) = pred (bound_count c m).
Proof.
  unfold bound_count. induction m as [|[k v] m IH]; simpl; [reflexivity|].
  destruct (Nat.eqb v c) eqn:E; simpl.
  - now rewrite key_eqb_refl.
  - now rewrite E.
Qed.


(** The close handler of src/server.js touches only the closing socket's
    entries, and only one of them: in every run, an identifier resolves to
    another socket after the close exactly if it did before, and the
    closing socket is left with one entry less than it had (none less if
    it had none). *)
Theorem standalone_close_removes_one_own_entry (trace : list Standalone.event)
    (X : socket) :
  let w := Standalone.run Standalone.init trace in
  (forall k Y, Y <> X ->
               (map_get k (Standalone.clients (Standalone.on_close X w)) = Some Y <->
                map_get k (Standalone.clients w) = Some Y)) /\
  bound_count X (Standalone.clients (Standalone.on_close X w)) =
    pred (bound_count X (Standalone.clients w)) /\
  List.length (Standalone.clients (Standalone.on_close X w)) =
    List.length (Standalone.clients w) -
    (if Nat.eqb (bound_count X (Standalone.clients w)) 0 then 0 else 1).
Proof.
  intros w. pose proof (standalone_keys_unique trace) as Hnd. fold w in Hnd.
  simpl. repeat split.
  - intros Hget. apply map_get_in, in_remove_first_of in Hget.
    now apply in_map_get.
  - now apply map_get_remove_first_of.
  - apply bound_count_remove_first_self.
  - clear Hnd. unfold bound_count.
    induction (Standalone.clients w) as [|[k v] m IH]; simpl; [reflexivity|].
    destruct (Nat.eqb v X) eqn:E; simpl.
    + rewrite key_eqb_refl. lia.
    + rewrite IH. destruct (Nat.eqb _ 0) eqn:E0; [lia|].
      apply Nat.eqb_neq in E0.
      destruct m as [|e m]; [simpl in E0; congruence | simpl; lia].
Qed.

(** In src/unnamed/part_000, closing a socket whose [connectedAgentId] is
    truthy and printable deletes the entry of that identifier, whichever
    socket the entry holds, and leaves every other identifier as it was.
    For an identifier that is not printable (an object with an own
    [toString]) the handler throws before the delete and the map stays as
    it is. *)
Theorem store_close_deletes_session_id (trace : list StoreBacked.event)
    (ws : socket) :
  let w := StoreBacked.run StoreBacked.init trace in
  truthy (StoreBacked.connectedAgentId w ws) = true ->
  (key_printable (StoreBacked.connectedAgentId w ws) = true ->
   map_get (StoreBacked.connectedAgentId w ws)
           (StoreBacked.activeConnections (StoreBacked.on_close ws w)) = None /\
   (forall k, k <> StoreBacked.connectedAgentId w ws ->
              map_get k (StoreBacked.activeConnections (StoreBacked.on_close ws w)) =
              map_get k (StoreBacked.activeConnections w))) /\
  (key_printable (StoreBacked.connectedAgentId w ws) = false ->
   StoreBacked.activeConnections (StoreBacked.on_close ws w) =
   StoreBacked.activeConnections w).
Proof.
  intros w Ht. unfold StoreBacked.on_close. simpl. rewrite Ht. split.
  - intros Hp. rewrite Hp. simpl. split.
    + apply map_get_delete_same, store_keys_unique.
    + intros k Hk. apply map_get_delete_other. congruence.
  - intros Hp. now rewrite Hp.
Qed.

Lemma store_close_deletes_session_id_witness :
  (let w := StoreBacked.run StoreBacked.init
              [StoreBacked.Connection 0; StoreBacked.Connection 1;
               StoreBacked.Message 0 (register_frame "A");
               StoreBacked.Message 1 (register_frame "B")] in
   map_get (StoreBacked.connectedAgentId w 0)
           (StoreBacked.activeConnections (StoreBacked.on_close 0 w)) = None /\
   (forall k, k <> StoreBacked.connectedAgentId w 0 ->
              map_get k (StoreBacked.activeConnections (StoreBacked.on_close 0 w)) =
              map_get k (StoreBacked.activeConnections w))) /\
  (let w := StoreBacked.run StoreBacked.init
              [StoreBacked.Connection 0;
               StoreBacked.Message 0
                 (Parsed (JObj [("type", JStr "register");
                                ("agentId", JObj [("toString", JBool true)])]))] in
   StoreBacked.connectedAgentId w 0 = KRef 0 false /\
   StoreBacked.readyState (StoreBacked.on_close 0 w) 0 = CLOSED /\
   StoreBacked.activeConnections (StoreBacked.on_close 0 w) = [(KRef 0 false, 0)]).
Proof.
  split.
  - apply (proj1 (store_close_deletes_session_id
                    [StoreBacked.Connection 0; StoreBacked.Connection 1;
                     StoreBacked.Message 0 (register_frame "A");
                     StoreBacked.Message 1 (register_frame "B")] 0 eq_refl)).
    reflexivity.
  - split; [reflexivity|]. split; [reflexivity|].
    apply (proj2 (store_close_deletes_session_id
                    [StoreBacked.Connection 0;
                     StoreBacked.Message 0
                       (Parsed (JObj [("type", JStr "register");
                                      ("agentId", JObj [("toString", JBool true)])]))]
                    0 eq_refl)).
    reflexivity.
Defined.

(** In src/unnamed/part_000 a socket that registered a falsy identifier (the
    empty string, [0], [false], [null], or no [agentId] at all) is never
    unbound: its close handler skips the delete, and the map keeps the
    identifier bound to the closed socket. *)
Theorem store_falsy_id_survives_close (ws : socket) (data : frame) (k : key)
    (w : StoreBacked.world) :
  frame_type data = Some "register" ->
  prim_key (frame_field "agentId" data) = Some k ->
  truthy k = false ->
  let w1 := StoreBacked.on_message ws data w in
  let w2 := StoreBacked.on_close ws w1 in
  map_get k (StoreBacked.activeConnections w1) = Some ws /\
  StoreBacked.activeConnections w2 = StoreBacked.activeConnections w1 /\
  map_get k (StoreBacked.activeConnections w2) = Some ws /\
  StoreBacked.readyState w2 ws = CLOSED.
Proof.
  intros Ht Hk Hf w1 w2.
  destruct (prim_key_printable _ _ Hk) as [Hpv _].
  assert (H1 : w1 = StoreBacked.register ws (frame_field "agentId" data) w).
  { subst w1. now rewrite store_on_message_by_type, Ht. }
  assert (Hget : map_get k (StoreBacked.activeConnections w1) = Some ws).
  { rewrite H1. unfold StoreBacked.register. rewrite Hk, Hpv. simpl.
    apply map_get_set_same. }
  assert (Hid : StoreBacked.connectedAgentId w1 ws = k).
  { rewrite H1. unfold StoreBacked.register. rewrite Hk, Hpv. simpl.
    unfold update. now rewrite Nat.eqb_refl. }
  assert (Hsame : StoreBacked.activeConnections w2 = StoreBacked.activeConnections w1).
  { subst w2. unfold StoreBacked.on_close. simpl. now rewrite Hid, Hf. }
  repeat split; try assumption.
  - now rewrite Hsame.
  - subst w2. simpl. unfold update. now rewrite Nat.eqb_refl.
Qed.

Lemma store_falsy_id_survives_close_witness :
  let data := Parsed (JObj [("type", JStr "register"); ("agentId", JStr "")]) in
  let w1 := StoreBacked.on_message 0 data
              (StoreBacked.run StoreBacked.init [StoreBacked.Connection 0]) in
  let w2 := StoreBacked.on_close 0 w1 in
  map_get (KStr "") (StoreBacked.activeConnections w1) = Some 0 /\
  StoreBacked.activeConnections w2 = StoreBacked.activeConnections w1 /\
  map_get (KStr "") (StoreBacked.activeConnections w2) = Some 0 /\
  StoreBacked.readyState w2 0 = CLOSED.
Proof.
  apply (store_falsy_id_survives_close 0
           (Parsed (JObj [("type", JStr "register"); ("agentId", JStr "")]))
           (KStr "")); reflexivity.
Defined.

End EntryEffects.

(** * Registering: supersession and edge values *)

Section RegisterEffects.

Lemma standalone_register_string (ws : socket) (id : string) (w : Standalone.world) :
  Standalone.register ws (Some (JStr id)) w =
  Standalone.mkWorld
    (map_set (KStr id) ws (map_delete (KStr (Standalone.clientId w ws))
                                      (Standalone.clients w)))
    (Standalone.readyState w) (Standalone.clientId w)
    (Standalone.sent w ++ [(ws, MRegistered (Some (JStr id)))])
    (Standalone.next_ref w).
Proof. reflexivity. Qed.

(** A later registration silently supersedes an earlier one.  When [id] is
    bound to [X] and another socket [Y] registers it, [id] resolves to [Y];
    [X] is neither closed nor told: its state and what it received are as
    before.  [Y] receives the one [registered] reply.  In
    src/unnamed/part_000 the session of [X] keeps its [connectedAgentId]. *)
Theorem register_supersedes_silently (X Y : socket) (id : string) (data : frame) :
  X <> Y ->
  frame_type data = Some "register" ->
  frame_field "agentId" data = Some (JStr id) ->
  (forall w,
      Standalone.lookup id w = Some X ->
      let w' := Standalone.on_message Y data w in
      Standalone.lookup id w' = Some Y /\
      Standalone.readyState w' X = Standalone.readyState w X /\
      Standalone.delivered X w' = Standalone.delivered X w /\
      Standalone.delivered Y w' =
        Standalone.delivered Y w ++ [MRegistered (Some (JStr id))]) /\
  (forall w,
      StoreBacked.lookup id w = Some X ->
      let w' := StoreBacked.on_message Y data w in
      StoreBacked.lookup id w' = Some Y /\
      StoreBacked.readyState w' X = StoreBacked.readyState w X /\
      StoreBacked.connectedAgentId w' X = StoreBacked.connectedAgentId w X /\
      StoreBacked.delivered X w' = StoreBacked.delivered X w /\
      StoreBacked.delivered Y w' =
        StoreBacked.delivered Y w ++ [MRegistered (Some (JStr id))]).
Proof.
  intros Hne Ht Ha.
  assert (HXY : Nat.eqb X Y = false) by now apply Nat.eqb_neq.
  split; intros w Hbound w'; subst w'.
  - rewrite standalone_on_message_by_type, Ht, Ha. simpl String.eqb. cbv iota.
    rewrite standalone_register_string.
    destruct (inbox_grows (Standalone.sent w)
                (Standalone.sent w ++ repeat (Y, MRegistered (Some (JStr id))) 1)
                Y (MRegistered (Some (JStr id))) 1 eq_refl) as [Hto Hothers].
    unfold Standalone.lookup, Standalone.delivered. simpl.
    repeat split.
    + apply map_get_set_same.
    + apply Hothers. congruence.
    + exact Hto.
  - rewrite store_on_message_by_type, Ht, Ha. simpl String.eqb. cbv iota.
    rewrite store_register_string.
    destruct (inbox_grows (StoreBacked.sent w)
                (StoreBacked.sent w ++ repeat (Y, MRegistered (Some (JStr id))) 1)
                Y (MRegistered (Some (JStr id))) 1 eq_refl) as [Hto Hothers].
    unfold StoreBacked.lookup, StoreBacked.delivered. simpl.
    repeat split.
    + apply map_get_set_same.
    + unfold update. now rewrite HXY.
    + apply Hothers. congruence.
    + exact Hto.
Qed.

Lemma register_supersedes_silently_witness :
  (let w := Standalone.run Standalone.init
              [Standalone.Connection 1000 0; Standalone.Connection 1001 1;
               Standalone.Message 0 (register_frame "A")] in
   let w' := Standalone.on_message 1 (register_frame "A") w in
   Standalone.lookup "A" w' = Some 1 /\
   Standalone.readyState w' 0 = Standalone.readyState w 0 /\
   Standalone.delivered 0 w' = Standalone.delivered 0 w /\
   Standalone.delivered 1 w' =
     Standalone.delivered 1 w ++ [MRegistered (Some (JStr "A"))]) /\
  (let w := StoreBacked.run StoreBacked.init
              [StoreBacked.Connection 0; StoreBacked.Connection 1;
               StoreBacked.Message 0 (register_frame "A")] in
   let w' := StoreBacked.on_message 1 (register_frame "A") w in
   StoreBacked.lookup "A" w' = Some 1 /\
   StoreBacked.readyState w' 0 = StoreBacked.readyState w 0 /\
   StoreBacked.connectedAgentId w' 0 = StoreBacked.connectedAgentId w 0 /\
   StoreBacked.delivered 0 w' = StoreBacked.delivered 0 w /\
   StoreBacked.delivered 1 w' =
     StoreBacked.delivered 1 w ++ [MRegistered (Some (JStr "A"))]).
Proof.
  pose proof (register_supersedes_silently 0 1 "A" (register_frame "A")) as H.
  destruct H as [Hs Hb]; [discriminate | reflexivity | reflexivity |].
  split; [apply Hs | apply Hb]; reflexivity.
Defined.

(** In every run of src/server.js, a [register] for [id] on [ws] binds [id]
    to [ws], unbinds the temporary id of [ws] whichever socket holds it,
    and leaves every other key of the map as it was. *)
Theorem standalone_register_touches_two_keys (trace : list Standalone.event)
    (ws : socket) (id : string) (data : frame) :
  frame_type data = Some "register" ->
  frame_field "agentId" data = Some (JStr id) ->
  let w := Standalone.run Standalone.init trace in
  let w' := Standalone.on_message ws data w in
  Standalone.lookup id w' = Some ws /\
  (id <> Standalone.clientId w ws ->
   Standalone.lookup (Standalone.clientId w ws) w' = None) /\
  (forall k, k <> KStr id -> k <> KStr (Standalone.clientId w ws) ->
             map_get k (Standalone.clients w') = map_get k (Standalone.clients w)).
Proof.
  intros Ht Ha w w'. subst w'.
  pose proof (standalone_keys_unique trace) as Hnd. fold w in Hnd.
  rewrite standalone_on_message_by_type, Ht, Ha. simpl String.eqb. cbv iota.
  rewrite standalone_register_string. unfold Standalone.lookup. simpl.
  repeat split.
  - apply map_get_set_same.
  - intros Hne. rewrite map_get_set_other by congruence.
    now apply map_get_delete_same.
  - intros k Hk Hold.
    rewrite map_get_set_other by congruence.
    apply map_get_delete_other. congruence.
Qed.

Lemma standalone_register_touches_two_keys_witness :
  let w := Standalone.run Standalone.init
             [Standalone.Connection 1000 0; Standalone.Connection 1000 1] in
  let w' := Standalone.on_message 0 (register_frame "A") w in
  Standalone.lookup "A" w' = Some 0 /\
  ("A" <> Standalone.clientId w 0 ->
   Standalone.lookup (Standalone.clientId w 0) w' = None) /\
  (forall k, k <> KStr "A" -> k <> KStr (Standalone.clientId w 0) ->
             map_get k (Standalone.clients w') = map_get k (Standalone.clients w)).
Proof.
  apply (standalone_register_touches_two_keys
           [Standalone.Connection 1000 0; Standalone.Connection 1000 1]
           0 "A" (register_frame "A")); reflexivity.
Defined.

(** A [register] without [agentId] binds the key [undefined], and a signal
    without a target is then routed to that socket: both relays use the
    missing fields as they come.  Here [ws] is open, registers without an
    [agentId], and receives the signal that names no target. *)
Theorem missing_fields_meet_at_undefined (ws sender : socket) (reg sig : frame) :
  frame_type reg = Some "register" ->
  frame_field "agentId" reg = None ->
  frame_type sig = Some "signal" ->
  (frame_field "target" sig = None ->
   forall w,
     Standalone.readyState w ws = OPEN ->
     Standalone.sent
       (Standalone.on_message sender sig (Standalone.on_message ws reg w)) =
     Standalone.sent w ++
       [(ws, MRegistered None);
        (ws, MSignal (frame_field "from" sig) (frame_field "signal" sig))]) /\
  (frame_field "targetAgentId" sig = None ->
   forall w,
     StoreBacked.readyState w ws = OPEN ->
     StoreBacked.sent
       (StoreBacked.on_message sender sig (StoreBacked.on_message ws reg w)) =
     StoreBacked.sent w ++
       [(ws, MRegistered None);
        (ws, MSignal (frame_field "fromAgentId" sig) (frame_field "signal" sig))]).
Proof.
  intros Hr Ha Hs. split; intros Htarget w Hopen.
  - rewrite (standalone_on_message_by_type ws reg), Hr, Ha. simpl String.eqb.
    cbv iota.
    rewrite standalone_on_message_by_type, Hs, Htarget. simpl String.eqb.
    cbv iota.
    rewrite standalone_forward with (Z := ws).
    + simpl. now rewrite <- app_assoc.
    + unfold map_get_value. simpl. apply map_get_set_same.
    + exact Hopen.
  - rewrite (store_on_message_by_type ws reg), Hr, Ha. simpl String.eqb.
    cbv iota.
    rewrite store_on_message_by_type, Hs, Htarget. simpl String.eqb.
    cbv iota.
    rewrite store_forward with (Z := ws).
    + simpl. now rewrite <- app_assoc.
    + unfold map_get_value. simpl. apply map_get_set_same.
    + exact Hopen.
Qed.

Lemma missing_fields_meet_at_undefined_witness :
  let reg := Parsed (JObj [("type", JStr "register")]) in
  let sig := Parsed (JObj [("type", JStr "signal"); ("signal", JStr "offer")]) in
  (let w := Standalone.run Standalone.init
              [Standalone.Connection 1000 0; Standalone.Connection 1001 1] in
   Standalone.sent (Standalone.on_message 1 sig (Standalone.on_message 0 reg w)) =
   Standalone.sent w ++
     [(0, MRegistered None);
      (0, MSignal (frame_field "from" sig) (frame_field "signal" sig))]) /\
  (let w := StoreBacked.run StoreBacked.init
              [StoreBacked.Connection 0; StoreBacked.Connection 1] in
   StoreBacked.sent (StoreBacked.on_message 1 sig (StoreBacked.on_message 0 reg w)) =
   StoreBacked.sent w ++
     [(0, MRegistered None);
      (0, MSignal (frame_field "fromAgentId" sig) (frame_field "signal" sig))]).
Proof.
  pose proof (missing_fields_meet_at_undefined 0 1
                (Parsed (JObj [("type", JStr "register")]))
                (Parsed (JObj [("type", JStr "signal"); ("signal", JStr "offer")]))
                eq_refl eq_refl eq_refl) as [Hs Hb].
  split; [apply Hs | apply Hb]; reflexivity.
Defined.

(** Temporary ids of src/server.js collide only when the clock values are
    equal: [Date.now().toString()] is one-to-one, and accepting a socket at
    another clock value leaves what a temporary id resolves to untouched. *)
Theorem temporary_ids_collide_only_on_equal_clocks (now1 now2 : Z) :
  (Standalone.temporary_id now1 = Standalone.temporary_id now2 <-> now1 = now2) /\
  (now1 <> now2 ->
   forall Y w,
     Standalone.lookup (Standalone.temporary_id now1)
                       (Standalone.on_connection now2 Y w) =
     Standalone.lookup (Standalone.temporary_id now1) w).
Proof.
  split.
  - split; [apply temporary_id_inj | now intros ->].
  - intros Hne Y w. unfold Standalone.lookup. simpl.
    apply map_get_set_other. intros [= E].
    apply temporary_id_inj in E. congruence.
Qed.

Lemma length_map_set (k : key) (v : socket) (m : jsmap) :
  List.length (map_set k v m) <= S (List.length m).
Proof.
  induction m as [|[k' v'] m IH]; simpl; [lia|].
  destruct (key_eqb k' k); simpl; lia.
Qed.

Lemma length_map_delete (k : key) (m : jsmap) :
  List.length (map_delete k m) <= List.length m.
Proof.
  induction m as [|[k' v'] m IH]; simpl; [lia|].
  destruct (key_eqb k' k); simpl; lia.
Qed.

Lemma activeConnections_register (ws : socket) (agentId : option json)
    (w : StoreBacked.world) :
  exists k, StoreBacked.activeConnections (StoreBacked.register ws agentId w) =
            map_set k ws (StoreBacked.activeConnections w).
Proof.
  unfold StoreBacked.register.
  destruct (prim_key agentId), (printable_value agentId); simpl; eauto.
Qed.

Lemma store_step_connections (w : StoreBacked.world) (e : StoreBacked.event) :
  connections (StoreBacked.step w e) <=
  connections w + store_register_messages [e].
Proof.
  unfold connections, store_register_messages.
  destruct e as [ws|ws data|ws]; simpl.
  - lia.
  - rewrite store_on_message_by_type. unfold is_register.
    destruct (frame_type data) as [type|]; simpl; [|lia].
    destruct (String.eqb type "register"); simpl.
    + destruct (activeConnections_register ws (frame_field "agentId" data) w)
        as [k ->].
      pose proof (length_map_set k ws (StoreBacked.activeConnections w)). lia.
    + destruct (String.eqb type "signal").
      * rewrite activeConnections_signal. lia.
      * destruct (String.eqb type "ping"); simpl; lia.
  - destruct (truthy (StoreBacked.connectedAgentId w ws) &&
              key_printable (StoreBacked.connectedAgentId w ws)); [|lia].
    pose proof (length_map_delete (StoreBacked.connectedAgentId w ws)
                  (StoreBacked.activeConnections w)). lia.
Qed.

(** The [connections] count of the root endpoint of src/unnamed/part_000 is
    the size of the map: it never exceeds the number of [register] messages
    handled so far, however many sockets were accepted. *)
Theorem connections_bounded_by_registrations (trace : list StoreBacked.event) :
  connections (StoreBacked.run StoreBacked.init trace) <=
  store_register_messages trace.
Proof.
  assert (H : forall w,
             connections (StoreBacked.run w trace) <=
             connections w + store_register_messages trace).
  { induction trace as [|e trace IH]; intros w; [simpl; lia|].
    change (StoreBacked.run w (e :: trace))
      with (StoreBacked.run (StoreBacked.step w e) trace).
    specialize (IH (StoreBacked.step w e)).
    pose proof (store_step_connections w e) as He.
    assert (Hc : store_register_messages (e :: trace) =
                 store_register_messages [e] + store_register_messages trace).
    { unfold store_register_messages. simpl.
      destruct e as [ws|ws data|ws]; simpl; try reflexivity.
      now destruct (is_register data). }
    lia. }
  apply (H StoreBacked.init).
Qed.

End RegisterEffects.

(** * src/server.js: the map is clean when no socket registers twice *)

Section RegisterOnce.









End RegisterOnce.

(** * src/unnamed/part_000: store updates in flight *)

Section StoreInFlight.

Lemma async_on_message_by_type (ws : socket) (data : frame)
    (a : StoreBackedAsync.world) :
  StoreBackedAsync.on_message ws data a =
  match frame_type data with
  | Some type =>
      if String.eqb type "register"
      then StoreBackedAsync.mkAsync
             (StoreBackedAsync.register_start ws (frame_field "agentId" data)
                (StoreBackedAsync.relay a))
             (if printable_value (frame_field "agentId" data)
              then StoreBackedAsync.pending a ++
                   [StoreBackedAsync.SendRegistered ws (frame_field "agentId" data)]
              else StoreBackedAsync.pending a)
      else if String.eqb type "signal"
      then StoreBackedAsync.mkAsync
             (StoreBacked.signal ws (frame_field "targetAgentId" data)
                (frame_field "fromAgentId" data) (frame_field "signal" data)
                (StoreBackedAsync.relay a))
             (StoreBackedAsync.pending a)
      else if String.eqb type "ping"
      then StoreBackedAsync.mkAsync
             (StoreBacked.send ws MPong (StoreBackedAsync.relay a))
             (StoreBackedAsync.pending a)
      else a
  | None => a
  end.
Proof.
  unfold StoreBackedAsync.on_message, StoreBackedAsync.dispatch.
  destruct data as [|[| | | | |fields]]; simpl; try reflexivity.
  destruct (own_field "type" fields) as [[| | |type| |]|]; try reflexivity.
  destruct (String.eqb type "register"); [reflexivity|].
  destruct (String.eqb type "signal"); [reflexivity|].
  now destruct (String.eqb type "ping").
Qed.

Lemma register_start_resume (ws : socket) (agentId : option json)
    (w : StoreBacked.world) :
  StoreBacked.register ws agentId w =
  if printable_value agentId
  then StoreBackedAsync.resume (StoreBackedAsync.SendRegistered ws agentId)
         (StoreBackedAsync.register_start ws agentId w)
  else StoreBackedAsync.register_start ws agentId w.
Proof.
  unfold StoreBackedAsync.register_start, StoreBacked.register.
  now destruct (prim_key agentId), (printable_value agentId).
Qed.

Lemma eager_step (w : StoreBacked.world) (e : StoreBacked.event) :
  StoreBackedAsync.run (StoreBackedAsync.mkAsync w []) (eagerly [e]) =
  StoreBackedAsync.mkAsync (StoreBacked.step w e) [].
Proof.
  destruct e as [ws|ws data|ws]; simpl.
  - reflexivity.
  - rewrite async_on_message_by_type, store_on_message_by_type. simpl.
    destruct (frame_type data) as [type|]; [|reflexivity].
    destruct (String.eqb type "register").
    { rewrite register_start_resume.
      now destruct (printable_value (frame_field "agentId" data)). }
    destruct (String.eqb type "signal"); [reflexivity|].
    now destruct (String.eqb type "ping").
  - unfold StoreBackedAsync.on_close, StoreBacked.on_close. simpl.
    now destruct (truthy (StoreBacked.connectedAgentId w ws) &&
                  key_printable (StoreBacked.connectedAgentId w ws)).
Qed.

(** When every store update resolves before the next event arrives, the
    relay with updates in flight does what the handlers do when run as one
    piece each, and nothing stays pending. *)
Lemma eager_schedule_runs_handlers_whole (trace : list StoreBacked.event)
    (w : StoreBacked.world) :
  StoreBackedAsync.run (StoreBackedAsync.mkAsync w []) (eagerly trace) =
  StoreBackedAsync.mkAsync (StoreBacked.run w trace) [].
Proof.
  revert w. induction trace as [|e trace IH]; intros w; [reflexivity|].
  change (eagerly (e :: trace)) with (eagerly [e] ++ eagerly trace).
  unfold StoreBackedAsync.run in *. rewrite fold_left_app.
  fold (StoreBackedAsync.run (StoreBackedAsync.mkAsync w []) (eagerly [e])).
  rewrite eager_step. apply IH.
Qed.

Lemma async_step_keys_unique (a : StoreBackedAsync.world)
    (e : StoreBackedAsync.event) :
  NoDup (keys (StoreBacked.activeConnections (StoreBackedAsync.relay a))) ->
  NoDup (keys (StoreBacked.activeConnections
                 (StoreBackedAsync.relay (StoreBackedAsync.step a e)))).
Proof.
  intros Hnd. destruct e as [ws|ws data|ws|n]; simpl.
  - assumption.
  - rewrite async_on_message_by_type.
    destruct (frame_type data) as [type|]; [|assumption].
    destruct (String.eqb type "register").
    { unfold StoreBackedAsync.register_start. simpl.
      destruct (prim_key (frame_field "agentId" data)); simpl;
        now apply NoDup_map_set. }
    destruct (String.eqb type "signal").
    { simpl. now rewrite activeConnections_signal. }
    now destruct (String.eqb type "ping").
  - assumption.
  - unfold StoreBackedAsync.resolve.
    destruct (nth_error (StoreBackedAsync.pending a) n) as [[ws agentId|ws]|];
      simpl; [assumption | now apply NoDup_map_delete | assumption].
Qed.

Lemma async_run_keys_unique (trace : list StoreBackedAsync.event)
    (a : StoreBackedAsync.world) :
  NoDup (keys (StoreBacked.activeConnections (StoreBackedAsync.relay a))) ->
  NoDup (keys (StoreBacked.activeConnections
                 (StoreBackedAsync.relay (StoreBackedAsync.run a trace)))).
Proof.
  revert a. induction trace as [|e trace IH]; intros a Hnd; [assumption|].
  simpl. apply IH. now apply async_step_keys_unique.
Qed.

(** While the store update of a close handler is in flight, the closed
    socket is still in the map: for a truthy, printable identifier, between
    the close of [ws] and the resolution of its update the identifier of
    [ws] resolves to the closed socket and a signal for it is dropped
    without any reply; once the update resolves the identifier is
    unbound. *)
Theorem closed_socket_bound_until_store_resolves
    (trace : list StoreBackedAsync.event) (ws : socket) :
  let a := StoreBackedAsync.run StoreBackedAsync.init trace in
  let k := StoreBacked.connectedAgentId (StoreBackedAsync.relay a) ws in
  truthy k = true ->
  key_printable k = true ->
  map_get k (StoreBacked.activeConnections (StoreBackedAsync.relay a)) = Some ws ->
  let a1 := StoreBackedAsync.on_close ws a in
  map_get k (StoreBacked.activeConnections (StoreBackedAsync.relay a1)) = Some ws /\
  StoreBacked.readyState (StoreBackedAsync.relay a1) ws = CLOSED /\
  (forall sender sig,
      frame_type sig = Some "signal" ->
      prim_key (frame_field "targetAgentId" sig) = Some k ->
      StoreBackedAsync.on_message sender sig a1 = a1) /\
  map_get k (StoreBacked.activeConnections
               (StoreBackedAsync.relay
                  (StoreBackedAsync.resolve
                     (List.length (StoreBackedAsync.pending a)) a1))) = None.
Proof.
  intros a k Ht Hp Hget a1.
  assert (Hnd : NoDup (keys (StoreBacked.activeConnections (StoreBackedAsync.relay a))))
    by (apply async_run_keys_unique; constructor).
  assert (Ha1 : a1 = StoreBackedAsync.mkAsync
                  (StoreBacked.mkWorld
                     (StoreBacked.activeConnections (StoreBackedAsync.relay a))
                     (update (StoreBacked.readyState (StoreBackedAsync.relay a)) ws CLOSED)
                     (StoreBacked.connectedAgentId (StoreBackedAsync.relay a))
                     (StoreBacked.sent (StoreBackedAsync.relay a))
                     (StoreBacked.next_ref (StoreBackedAsync.relay a)))
                  (StoreBackedAsync.pending a ++ [StoreBackedAsync.DeleteConnection ws])).
  { subst a1. unfold StoreBackedAsync.on_close. fold k. now rewrite Ht, Hp. }
  assert (Hclosed : StoreBacked.readyState (StoreBackedAsync.relay a1) ws = CLOSED).
  { rewrite Ha1. simpl. unfold update. now rewrite Nat.eqb_refl. }
  split; [now rewrite Ha1|]. split; [assumption|]. split.
  - intros sender sig Hs Htarget.
    rewrite async_on_message_by_type, Hs. simpl String.eqb. cbv iota.
    unfold StoreBacked.signal, map_get_value. rewrite Htarget.
    replace (map_get k (StoreBacked.activeConnections (StoreBackedAsync.relay a1)))
      with (Some ws) by now rewrite Ha1.
    rewrite Hclosed. simpl. now rewrite Ha1.
  - rewrite Ha1. unfold StoreBackedAsync.resolve. simpl.
    rewrite nth_error_app2 by lia. rewrite Nat.sub_diag. simpl.
    now apply map_get_delete_same.
Qed.

Lemma closed_socket_bound_until_store_resolves_witness :
  let a := StoreBackedAsync.run StoreBackedAsync.init
             [StoreBackedAsync.Connection 0;
              StoreBackedAsync.Message 0 (register_frame "A")] in
  let a1 := StoreBackedAsync.on_close 0 a in
  map_get (KStr "A") (StoreBacked.activeConnections (StoreBackedAsync.relay a1)) =
    Some 0 /\
  StoreBacked.readyState (StoreBackedAsync.relay a1) 0 = CLOSED /\
  (forall sender sig,
      frame_type sig = Some "signal" ->
      prim_key (frame_field "targetAgentId" sig) = Some (KStr "A") ->
      StoreBackedAsync.on_message sender sig a1 = a1) /\
  map_get (KStr "A")
    (StoreBacked.activeConnections
       (StoreBackedAsync.relay
          (StoreBackedAsync.resolve (List.length (StoreBackedAsync.pending a)) a1))) =
    None.
Proof.
  apply (closed_socket_bound_until_store_resolves
           [StoreBackedAsync.Connection 0;
            StoreBackedAsync.Message 0 (register_frame "A")] 0); reflexivity.
Defined.

End StoreInFlight.

(** * src/unnamed/part_000: identifiers that are objects *)

Section ObjectIdentifiers.

Lemma prim_key_not_ref (v : option json) (k : key) (n : nat) (p : bool) :
  prim_key v = Some k -> k <> KRef n p.
Proof. destruct v as [[| | | | |]|]; simpl; intros [= <-]; discriminate. Qed.

Lemma store_step_refs_fresh (w : StoreBacked.world) (e : StoreBacked.event) :
  (forall n p s, In (KRef n p, s) (StoreBacked.activeConnections w) ->
                 n < StoreBacked.next_ref w) ->
  forall n p s,
    In (KRef n p, s) (StoreBacked.activeConnections (StoreBacked.step w e)) ->
    n < StoreBacked.next_ref (StoreBacked.step w e).
Proof.
  intros Hfresh n p s. destruct e as [ws|ws data|ws]; simpl.
  - apply Hfresh.
  - rewrite store_on_message_by_type.
    destruct (frame_type data) as [type|]; [|apply Hfresh].
    destruct (String.eqb type "register").
    { unfold StoreBacked.register.
      destruct (prim_key (frame_field "agentId" data)) as [k|] eqn:Hk,
        (printable_value (frame_field "agentId" data)); simpl;
        intros Hin; apply in_map_set in Hin as [[= E]|Hin];
        try (apply Hfresh in Hin; lia); try lia;
        symmetry in E; now apply prim_key_not_ref with (n := n) (p := p) in Hk. }
    destruct (String.eqb type "signal").
    { unfold StoreBacked.signal. destruct (map_get_value _ _) as [t|];
        [|apply Hfresh].
      destruct (is_open (StoreBacked.readyState w t)); apply Hfresh. }
    destruct (String.eqb type "ping"); apply Hfresh.
  - destruct (truthy (StoreBacked.connectedAgentId w ws) &&
              key_printable (StoreBacked.connectedAgentId w ws)); [|apply Hfresh].
    intros Hin. apply in_map_delete in Hin. now apply (Hfresh n p s).
Qed.

Lemma store_run_refs_fresh (trace : list StoreBacked.event) (w : StoreBacked.world) :
  (forall n p s, In (KRef n p, s) (StoreBacked.activeConnections w) ->
                 n < StoreBacked.next_ref w) ->
  forall n p s,
    In (KRef n p, s) (StoreBacked.activeConnections (StoreBacked.run w trace)) ->
    n < StoreBacked.next_ref (StoreBacked.run w trace).
Proof.
  revert w. induction trace as [|e trace IH]; intros w Hfresh; [assumption|].
  simpl. apply IH. now apply store_step_refs_fresh.
Qed.

Lemma register_object (ws : socket) (agentId : option json) (w : StoreBacked.world) :
  prim_key agentId = None ->
  StoreBacked.activeConnections (StoreBacked.register ws agentId w) =
    map_set (KRef (StoreBacked.next_ref w) (printable_value agentId)) ws
            (StoreBacked.activeConnections w).
Proof.
  intros Hk. unfold StoreBacked.register. rewrite Hk.
  now destruct (printable_value agentId).
Qed.

(** An [agentId] that is a JSON object or array is a new key every time:
    in every run of src/unnamed/part_000, [n] identical [register] frames
    with such an [agentId] add [n] entries to the map, and no signal is
    routed differently afterwards, since no target equals those keys. *)
Theorem object_ids_always_add_entries (trace : list StoreBacked.event)
    (ws : socket) (data : frame) (n : nat) :
  frame_type data = Some "register" ->
  prim_key (frame_field "agentId" data) = None ->
  let w := StoreBacked.run StoreBacked.init trace in
  let w' := repeatedly (StoreBacked.on_message ws data) n w in
  connections w' = connections w + n /\
  (forall target,
      map_get_value target (StoreBacked.activeConnections w') =
      map_get_value target (StoreBacked.activeConnections w)).
Proof.
  intros Ht Hk w w'.
  assert (Hw : forall n p s, In (KRef n p, s) (StoreBacked.activeConnections w) ->
                             n < StoreBacked.next_ref w).
  { apply store_run_refs_fresh. intros ? ? ? []. }
  assert (H : (forall r p s, In (KRef r p, s) (StoreBacked.activeConnections w') ->
                             r < StoreBacked.next_ref w') /\
              connections w' = connections w + n /\
              (forall target,
                  map_get_value target (StoreBacked.activeConnections w') =
                  map_get_value target (StoreBacked.activeConnections w))).
  { subst w'. unfold repeatedly. induction n as [|n IH].
    - simpl. split; [assumption|]. split; [lia | reflexivity].
    - simpl. set (wn := Nat.iter n (StoreBacked.on_message ws data) w) in *.
      destruct IH as [Hfresh [Hsize Hroute]].
      split; [apply (store_step_refs_fresh wn (StoreBacked.Message ws data) Hfresh)|].
      rewrite store_on_message_by_type, Ht. simpl String.eqb. cbv iota.
      unfold connections in *. rewrite !register_object by assumption.
      set (fresh := KRef (StoreBacked.next_ref wn)
                         (printable_value (frame_field "agentId" data))).
      assert (Hnone : map_get fresh (StoreBacked.activeConnections wn) = None).
      { destruct (map_get _ _) as [s|] eqn:E; [|reflexivity].
        apply map_get_in in E. apply Hfresh in E. lia. }
      split.
      + rewrite map_set_absent by assumption. rewrite length_app. simpl. lia.
      + intros target. rewrite <- Hroute. unfold map_get_value.
        destruct (prim_key target) as [k|] eqn:Hp; [|reflexivity].
        apply map_get_set_other. intros E. symmetry in E.
        now apply prim_key_not_ref with (1 := Hp) in E. }
  apply H.
Qed.

Lemma object_ids_always_add_entries_witness :
  let data := Parsed (JObj [("type", JStr "register");
                            ("agentId", JObj [("name", JStr "A")])]) in
  let w := StoreBacked.run StoreBacked.init [StoreBacked.Connection 0] in
  let w' := repeatedly (StoreBacked.on_message 0 data) 2 w in
  connections w' = connections w + 2 /\
  (forall target,
      map_get_value target (StoreBacked.activeConnections w') =
      map_get_value target (StoreBacked.activeConnections w)).
Proof.
  apply (object_ids_always_add_entries [StoreBacked.Connection 0] 0
           (Parsed (JObj [("type", JStr "register");
                          ("agentId", JObj [("name", JStr "A")])])) 2);
    reflexivity.
Defined.

End ObjectIdentifiers.

(** * Sockets that come and go *)

Section ShortLived.

Lemma remove_first_of_map_set (ws : socket) (k : key) (m : jsmap) :
  (forall k', ~ In (k', ws) m) ->
  Standalone.remove_first_of ws (map_set k ws m) = map_delete k m.
Proof.
  induction m as [|[k0 v0] m IH]; intros Hno; simpl.
  - now rewrite Nat.eqb_refl, key_eqb_refl.
  - assert (Hv : Nat.eqb v0 ws = false).
    { apply Nat.eqb_neq. intros ->. apply (Hno k0). now left. }
    destruct (key_eqb k0 k) eqn:E; simpl.
    + now rewrite Nat.eqb_refl, key_eqb_refl.
    + rewrite Hv. f_equal. apply IH. intros k' Hin. apply (Hno k'). now right.
Qed.

Lemma map_delete_map_set (k : key) (v : socket) (m : jsmap) :
  map_delete k (map_set k v m) = map_delete k m.
Proof.
  induction m as [|[k0 v0] m IH]; simpl.
  - now rewrite key_eqb_refl.
  - destruct (key_eqb k0 k) eqn:E; simpl; rewrite E; [reflexivity|].
    now rewrite IH.
Qed.

(** Accepting a socket in src/server.js and closing it again, with no
    message in between, leaves the map as it was except that the temporary
    id is unbound: if another socket held that identifier (a collision of
    clock values, or an agent registered under that decimal string), the
    short-lived socket has taken the binding with it. *)
Theorem accept_then_close_unbinds_temporary_id (now : Z) (ws : socket)
    (w : Standalone.world) :
  bound_count ws (Standalone.clients w) = 0 ->
  Standalone.clients (Standalone.on_close ws (Standalone.on_connection now ws w)) =
  map_delete (KStr (Standalone.temporary_id now)) (Standalone.clients w).
Proof.
  intros Hzero. simpl. apply remove_first_of_map_set.
  now apply bound_count_none.
Qed.

Lemma accept_then_close_unbinds_temporary_id_witness :
  let w := Standalone.run Standalone.init
             [Standalone.Connection 1000 0;
              Standalone.Message 0 (register_frame "1001")] in
  Standalone.lookup "1001" w = Some 0 /\
  Standalone.clients (Standalone.on_close 1 (Standalone.on_connection 1001 1 w)) =
  map_delete (KStr (Standalone.temporary_id 1001)) (Standalone.clients w) /\
  Standalone.lookup "1001"
    (Standalone.on_close 1 (Standalone.on_connection 1001 1 w)) = None.
Proof.
  split; [reflexivity|]. split; [|reflexivity].
  apply (accept_then_close_unbinds_temporary_id 1001 1). reflexivity.
Defined.

(** In src/unnamed/part_000, a socket that registers a truthy identifier
    and then closes leaves the map as it was except that the identifier is
    unbound, whoever held it before. *)
Theorem register_then_close_unbinds_id (ws : socket) (data : frame) (k : key)
    (w : StoreBacked.world) :
  frame_type data = Some "register" ->
  prim_key (frame_field "agentId" data) = Some k ->
  truthy k = true ->
  StoreBacked.activeConnections
    (StoreBacked.on_close ws (StoreBacked.on_message ws data w)) =
  map_delete k (StoreBacked.activeConnections w).
Proof.
  intros Ht Hk Htruthy. destruct (prim_key_printable _ _ Hk) as [Hpv Hpk].
  rewrite store_on_message_by_type, Ht.
  simpl String.eqb. cbv iota.
  unfold StoreBacked.register, StoreBacked.on_close. rewrite Hk, Hpv. simpl.
  unfold update. rewrite Nat.eqb_refl, Htruthy, Hpk.
  apply map_delete_map_set.
Qed.

Lemma register_then_close_unbinds_id_witness :
  let w := StoreBacked.run StoreBacked.init
             [StoreBacked.Connection 0; StoreBacked.Connection 1;
              StoreBacked.Message 0 (register_frame "A")] in
  StoreBacked.activeConnections
    (StoreBacked.on_close 1 (StoreBacked.on_message 1 (register_frame "A") w)) =
  map_delete (KStr "A") (StoreBacked.activeConnections w).
Proof.
  apply (register_then_close_unbinds_id 1 (register_frame "A") (KStr "A"));
    reflexivity.
Defined.

End ShortLived.
